(** * Payment-confirmation reconciliation of the cashu wallet CLI

    A shallow embedding of [cli/wallet.mjs]: the [invoice] wait loop
    (lines 90-160), the [check-invoice] single-shot path (lines 162-205)
    and the [main] wrapper with its outer catch, cleanup and exit code
    (lines 66-68, 346-354); then the other commands of the switch
    (lines 69-88, 207-345) and the start-up code: the migration of the
    wallet directory and the seed getter (lines 11-40).

    The external collaborators (the coco manager, its quote repository,
    the clock and the timer) are an oracle [Env]: the answer and the
    duration of the n-th call of each operation.  Whatever an answer
    depends on (the arguments, the mint, the background watcher), one run
    of the process sees one such sequence of answers, so nothing is lost
    by listing them by call number.  The program itself is
    written in a small monad whose results are the three ways a piece of
    JavaScript ends here: it returns, it throws, or it calls
    [process.exit]. *)

From Stdlib Require Import ZArith NArith Arith Bool List String Ascii Lia.
Import ListNotations.
Open Scope string_scope.
Open Scope Z_scope.

(** ** Strings *)

(** [s.includes(search)]: a case-sensitive substring test.  Strings are
    sequences of bytes here; every pattern the program searches for is
    ASCII, and an ASCII pattern occurs in the UTF-8 bytes of a text exactly
    where it occurs in its UTF-16 code units. *)
Fixpoint includes (s search : string) : bool :=
  String.prefix search s
  || match s with
     | EmptyString => false
     | String _ rest => includes rest search
     end.

(** ** Data *)

(** A stored mint quote; [state] is the string the repository holds. *)
Record MintQuote := mkMintQuote {
  quote : string;
  request : string;
  state : string
}.

Record Mint := mkMint {
  mintUrl : string;
  trusted : bool
}.

(** A thrown value; [message] is [None] when the property is absent. *)
Record JsError := mkJsError {
  message : option string
}.

(** A promise that has settled. *)
Inductive Settled (A : Type) : Type :=
| Resolves (a : A)
| Rejects (e : JsError).
Arguments Resolves {A} a.
Arguments Rejects {A} e.

(** What the process writes. *)
Inductive Output : Type :=
| LogInvoice (q : MintQuote) (amount : Z) (mint : string) (timeoutMs : Z)
| StdoutDot
| LogInvoicePaid
| LogPaymentTimeout (quoteId mint : string)
| LogPaid
| LogNotPaidYet
| ErrNoMint
| ErrUsageCheckInvoice
| ErrRedeeming (msg : option string)
| ErrError (msg : option string).

(** ** The environment and the process state *)

Record Env := mkEnv {
  (** [parseInt] of a string, [None] for NaN.  The values are the finite
      ones: a string of some 309 digits or more, for which [parseInt] gives
      Infinity, is not among the arguments this field answers for (see
      [JsTimeout] and [wait_loop_any] for the loop under such a timeout). *)
  parseInt : string -> option Z;
  getAllMints : Settled (list Mint);
  createMintQuote : Settled MintQuote;
  (** the n-th [mintQuoteRepository.getMintQuote] and how long it takes *)
  getMintQuote : nat -> Settled (option MintQuote);
  getMintQuote_ms : nat -> N;
  (** the n-th [quotes.redeemMintQuote] and how long it takes *)
  redeemMintQuote : nat -> Settled unit;
  redeemMintQuote_ms : nat -> N;
  (** how late the n-th [setTimeout] fires *)
  setTimeout_late : nat -> N
}.

Record State := mkState {
  now : Z;              (* Date.now() *)
  reads : nat;          (* getMintQuote calls made *)
  redeems : nat;        (* redeemMintQuote calls made *)
  sleeps : nat;         (* timers awaited *)
  out : list Output;    (* newest first *)
  disposed : bool       (* cleanup() has run *)
}.

Definition init (t : Z) : State := mkState t 0 0 0 [] false.

Definition advance (ms : Z) (st : State) : State :=
  mkState (now st + ms) (reads st) (redeems st) (sleeps st) (out st) (disposed st).

Definition count_read (st : State) : State :=
  mkState (now st) (S (reads st)) (redeems st) (sleeps st) (out st) (disposed st).

Definition count_redeem (st : State) : State :=
  mkState (now st) (reads st) (S (redeems st)) (sleeps st) (out st) (disposed st).

Definition count_sleep (st : State) : State :=
  mkState (now st) (reads st) (redeems st) (S (sleeps st)) (out st) (disposed st).

Definition emit (o : Output) (st : State) : State :=
  mkState (now st) (reads st) (redeems st) (sleeps st) (o :: out st) (disposed st).

Definition dispose (st : State) : State :=
  mkState (now st) (reads st) (redeems st) (sleeps st) (out st) true.

(** ** The monad *)

Inductive Res (A : Type) : Type :=
| Ok (a : A)
| Throw (e : JsError)
| Exit (code : Z).
Arguments Ok {A} a.
Arguments Throw {A} e.
Arguments Exit {A} code.

Definition M (A : Type) : Type := State -> Res A * State.

Definition ret {A} (a : A) : M A := fun st => (Ok a, st).

Definition bind {A B} (m : M A) (k : A -> M B) : M B := fun st =>
  match m st with
  | (Ok a, st') => k a st'
  | (Throw e, st') => (Throw e, st')
  | (Exit c, st') => (Exit c, st')
  end.

Definition throw {A} (e : JsError) : M A := fun st => (Throw e, st).

(** [process.exit(code)] *)
Definition process_exit {A} (code : Z) : M A := fun st => (Exit code, st).

(** [try { m } catch (error) { h error }] *)
Definition try_catch {A} (m : M A) (h : JsError -> M A) : M A := fun st =>
  match m st with
  | (Throw e, st') => h e st'
  | r => r
  end.

Definition console (o : Output) : M unit := fun st => (Ok tt, emit o st).

Definition await {A} (p : Settled A) : M A := fun st =>
  match p with
  | Resolves a => (Ok a, st)
  | Rejects e => (Throw e, st)
  end.

Declare Scope js_scope.
Delimit Scope js_scope with js.
Notation "x <- m ;; k" := (bind m (fun x => k))
  (at level 61, m at next level, right associativity) : js_scope.
Notation "m ;; k" := (bind m (fun _ => k))
  (at level 61, right associativity) : js_scope.
Open Scope js_scope.

(** ** Calls to the collaborators *)

(** The state once the pending [getMintQuote] has settled. *)
Definition after_read (env : Env) (st : State) : State :=
  count_read (advance (Z.of_N (getMintQuote_ms env (reads st))) st).

(** [await coco.mintQuoteRepository.getMintQuote(mintUrl, quoteId)] *)
Definition mintQuoteRepository_getMintQuote (env : Env) : M (option MintQuote) :=
  fun st => await (getMintQuote env (reads st)) (after_read env st).

(** The state once the pending [redeemMintQuote] has settled. *)
Definition after_redeem (env : Env) (st : State) : State :=
  count_redeem (advance (Z.of_N (redeemMintQuote_ms env (redeems st))) st).

(** [await coco.quotes.redeemMintQuote(mintUrl, quoteId)] *)
Definition quotes_redeemMintQuote (env : Env) : M unit :=
  fun st => await (redeemMintQuote env (redeems st)) (after_redeem env st).

(** The state once a timer of [ms] milliseconds has fired. *)
Definition after_sleep (env : Env) (ms : Z) (st : State) : State :=
  count_sleep (advance (ms + Z.of_N (setTimeout_late env (sleeps st))) st).

(** [await new Promise(resolve => setTimeout(resolve, ms))] *)
Definition sleep (env : Env) (ms : Z) : M unit :=
  fun st => (Ok tt, after_sleep env ms st).

(** ** Small JavaScript idioms *)

(** A string-or-undefined value is truthy when it is a non-empty string. *)
Definition truthy (v : option string) : bool :=
  match v with
  | Some s => negb (s =? "")%string
  | None => false
  end.

(** [error.message || ''] *)
Definition message_or_empty (error : JsError) : string :=
  match message error with
  | Some s => s
  | None => ""
  end.

(** [localQuote && localQuote.state === 'ISSUED'] *)
Definition isIssued (localQuote : option MintQuote) : bool :=
  match localQuote with
  | Some q => (state q =? "ISSUED")%string
  | None => false
  end.

(** [parseInt(arg) || dflt]; [parseInt(undefined)] is NaN. *)
Definition parseInt_or (env : Env) (arg : option string) (dflt : Z) : Z :=
  match arg with
  | None => dflt
  | Some s =>
      match parseInt env s with
      | Some z => if z =? 0 then dflt else z
      | None => dflt
      end
  end.

(** [arg || (await coco.mint.getAllMints())[0]?.mintUrl] *)
Definition mintUrl_or_first (env : Env) (arg : option string) : M (option string) :=
  if truthy arg then ret arg
  else mints <- await (getAllMints env) ;;
       ret (option_map mintUrl (hd_error mints)).

(** ** [case 'invoice']: the wait loop (lines 109-152) *)

Definition pollInterval : Z := 5000.

(** The [try] block of one iteration (lines 113-124).  [true] stands for
    [paid = true; break]. *)
Definition invoice_try (env : Env) : M bool :=
  localQuote <- mintQuoteRepository_getMintQuote env ;;
  if isIssued localQuote then ret true
  else quotes_redeemMintQuote env ;; ret true.

(** The condition of line 130. *)
Definition invoice_duplicate_signal (errorMsg : string) : bool :=
  includes errorMsg "already issued"
  || includes errorMsg "already spent"
  || includes errorMsg "Tokens already minted".

(** The condition of lines 139-143. *)
Definition invoice_pending_signal (errorMsg : string) : bool :=
  includes errorMsg "PENDING"
  || includes errorMsg "not paid"
  || includes errorMsg "UNPAID"
  || includes errorMsg "Quote not paid"
  || includes errorMsg "quote not paid".

(** The [catch] block of one iteration (lines 125-151).  [true] stands
    for [paid = true; break], [false] for falling out of the handler into
    the next test of the loop condition. *)
Definition invoice_catch (env : Env) (error : JsError) : M bool :=
  let errorMsg := message_or_empty error in
  issued <- (if invoice_duplicate_signal errorMsg
             then localQuote <- mintQuoteRepository_getMintQuote env ;;
                  ret (isIssued localQuote)
             else ret false) ;;
  if issued then ret true
  else if invoice_pending_signal errorMsg
       then console StdoutDot ;; sleep env pollInterval ;; ret false
       else throw error.

(** One pass through the body of the [while]. *)
Definition invoice_attempt (env : Env) : M bool :=
  try_catch (invoice_try env) (invoice_catch env).

(** [while (Date.now() - startTime < timeoutMs) { ... }]; the result is
    the final value of [paid].  [None] only when [fuel] runs out. *)
Fixpoint wait_loop (fuel : nat) (env : Env) (timeoutMs startTime : Z)
  (st : State) : option (Res bool * State) :=
  match fuel with
  | O => None
  | S fuel' =>
      if now st - startTime <? timeoutMs then
        match invoice_attempt env st with
        | (Ok true, st') => Some (Ok true, st')
        | (Ok false, st') => wait_loop fuel' env timeoutMs startTime st'
        | (Throw e, st') => Some (Throw e, st')
        | (Exit c, st') => Some (Exit c, st')
        end
      else Some (Ok false, st)
  end.

(** Iterations that go round again sleep at least [pollInterval], so this
    many are always enough ([wait_for_payment_returns] below). *)
Definition enough_fuel (timeoutMs : Z) : nat :=
  S (Z.to_nat (timeoutMs / pollInterval + 1)).

(** Lines 109-152: [startTime = Date.now()], then the loop. *)
Definition wait_for_payment (env : Env) (timeoutMs : Z) (st : State)
  : option (Res bool * State) :=
  wait_loop (enough_fuel timeoutMs) env timeoutMs (now st) st.

(** Lines 91-107: arguments, the mint, the quote and the banner. *)
Definition invoice_setup (env : Env) (args : list string)
  : M (Z * string * MintQuote) :=
  let amount := parseInt_or env (nth_error args 0) 1000 in
  mint <- mintUrl_or_first env (nth_error args 1) ;;
  let timeoutMs := parseInt_or env (nth_error args 2) 300000 in
  match mint with
  | Some url =>
      if negb (truthy mint) then console ErrNoMint ;; process_exit 1
      else
        q <- await (createMintQuote env) ;;
        console (LogInvoice q amount url timeoutMs) ;;
        ret (timeoutMs, url, q)
  | None => console ErrNoMint ;; process_exit 1
  end.

(** Lines 154-158. *)
Definition invoice_report (paid : bool) (url : string) (q : MintQuote) : M unit :=
  if paid then console LogInvoicePaid
  else console (LogPaymentTimeout (quote q) url).

Definition case_invoice (env : Env) (args : list string) (st : State)
  : option (Res unit * State) :=
  match invoice_setup env args st with
  | (Ok (timeoutMs, url, q), st1) =>
      match wait_for_payment env timeoutMs st1 with
      | Some (Ok paid, st2) => Some (invoice_report paid url q st2)
      | Some (Throw e, st2) => Some (Throw e, st2)
      | Some (Exit c, st2) => Some (Exit c, st2)
      | None => None
      end
  | (Throw e, st1) => Some (Throw e, st1)
  | (Exit c, st1) => Some (Exit c, st1)
  end.

(** ** [case 'check-invoice'] (lines 162-205) *)

(** The [try] block (lines 175-183). *)
Definition check_try (env : Env) : M unit :=
  localQuote <- mintQuoteRepository_getMintQuote env ;;
  if isIssued localQuote then console LogPaid
  else quotes_redeemMintQuote env ;; console LogPaid.

(** The condition of line 187. *)
Definition check_duplicate_signal (errorMsg : string) : bool :=
  includes errorMsg "already issued" || includes errorMsg "already spent".

(** The condition of lines 195-197. *)
Definition check_pending_signal (errorMsg : string) : bool :=
  includes errorMsg "PENDING"
  || includes errorMsg "not paid"
  || includes errorMsg "UNPAID".

(** The [catch] block (lines 184-203). *)
Definition check_catch (env : Env) (error : JsError) : M unit :=
  let errorMsg := message_or_empty error in
  issued <- (if check_duplicate_signal errorMsg
             then localQuote <- mintQuoteRepository_getMintQuote env ;;
                  ret (isIssued localQuote)
             else ret false) ;;
  if issued then console LogPaid
  else if check_pending_signal errorMsg
       then console LogNotPaidYet
       else console (ErrRedeeming (message error)) ;; process_exit 1.

(** Lines 175-203: the single resolution attempt. *)
Definition check_attempt (env : Env) : M unit :=
  try_catch (check_try env) (check_catch env).

Definition case_check_invoice (env : Env) (args : list string) : M unit :=
  if negb (truthy (nth_error args 0))
  then console ErrUsageCheckInvoice ;; process_exit 1
  else
    mintUrlCheck <- mintUrl_or_first env (nth_error args 1) ;;
    if negb (truthy mintUrlCheck)
    then console ErrNoMint ;; process_exit 1
    else check_attempt env.

(** ** [main] (lines 66-68 and 346-354) *)

(** The two commands of the [switch] that reconcile a quote. *)
Inductive Command : Type := Invoice | CheckInvoice.

(** [cleanup()] swallows its own errors. *)
Definition cleanup (st : State) : State := dispose st.

(** The exit code of the process and its last state. *)
Definition main (env : Env) (command : Command) (args : list string)
  (st : State) : option (Z * State) :=
  let body :=
    match command with
    | Invoice => case_invoice env args st
    | CheckInvoice => Some (case_check_invoice env args st)
    end in
  match body with
  | Some (Ok _, st') => Some (0, cleanup st')
  | Some (Throw error, st') =>
      Some (1, cleanup (emit (ErrError (message error)) st'))
  | Some (Exit code, st') => Some (code, st')
  | None => None
  end.

(** ** The specification's vocabulary *)

(** The matching the specification describes: a substring test that
    ignores the case of ASCII letters. *)
Definition toLowerCase_ascii (c : ascii) : ascii :=
  let n := nat_of_ascii c in
  if ((65 <=? n) && (n <=? 90))%nat then ascii_of_nat (n + 32) else c.

Fixpoint toLowerCase (s : string) : string :=
  match s with
  | EmptyString => EmptyString
  | String c rest => String (toLowerCase_ascii c) (toLowerCase rest)
  end.

Definition spec_contains (s pattern : string) : bool :=
  includes (toLowerCase s) (toLowerCase pattern).

(** "already issued" / "already spent" / "already minted" *)
Definition spec_duplicate_signal (errorMsg : string) : bool :=
  spec_contains errorMsg "already issued"
  || spec_contains errorMsg "already spent"
  || spec_contains errorMsg "already minted".

(** "PENDING" / "not paid" / "UNPAID" *)
Definition spec_pending_signal (errorMsg : string) : bool :=
  spec_contains errorMsg "PENDING"
  || spec_contains errorMsg "not paid"
  || spec_contains errorMsg "UNPAID".

(** The three classes an error falls into. *)
Inductive Verdict : Type := DuplicateSuccess | StillPending | Fatal.

(** How the loop's handler shows its class: it breaks with [paid] set,
    it falls through to the next round, or it ends abruptly. *)
Definition loop_verdict (r : Res bool * State) : Verdict :=
  match fst r with
  | Ok true => DuplicateSuccess
  | Ok false => StillPending
  | Throw _ => Fatal
  | Exit _ => Fatal
  end.

(** How the manual handler shows its class: by the line it prints, or by
    ending abruptly. *)
Definition manual_verdict (r : Res unit * State) : Verdict :=
  match fst r with
  | Ok _ =>
      match out (snd r) with
      | LogPaid :: _ => DuplicateSuccess
      | _ => StillPending
      end
  | Throw _ => Fatal
  | Exit _ => Fatal
  end.

(** Manual reconciliation invoked [n] times in a row against the same
    collaborators; the results, oldest first. *)
Fixpoint check_repeatedly (n : nat) (env : Env) (st : State)
  : list (Res unit) * State :=
  match n with
  | O => ([], st)
  | S n' =>
      let (r, st1) := check_attempt env st in
      let (rs, st2) := check_repeatedly n' env st1 in
      (r :: rs, st2)
  end.

(** The environment [env] with the answer of its [k]-th read replaced. *)
Definition with_read (env : Env) (k : nat) (r : Settled (option MintQuote)) : Env :=
  mkEnv (parseInt env) (getAllMints env) (createMintQuote env)
        (fun n => if Nat.eqb n k then r else getMintQuote env n)
        (getMintQuote_ms env) (redeemMintQuote env) (redeemMintQuote_ms env)
        (setTimeout_late env).

(** ** Concrete collaborators used in the examples *)

Definition error_of (msg : string) : JsError := mkJsError (Some msg).

Definition quote_in (s : string) : MintQuote :=
  mkMintQuote "q1" "lnbc1000n1example" s.

Definition the_mint : Mint := mkMint "https://mint.example" true.

(** Collaborators with a scripted store and engine; reads take [r_ms],
    redemptions [d_ms], timers fire [late] ms late. *)
Definition scripted (read : nat -> Settled (option MintQuote))
  (redeem : nat -> Settled unit) (r_ms d_ms late : N) : Env :=
  mkEnv (fun _ => None) (Resolves [the_mint]) (Resolves (quote_in "UNPAID"))
        read (fun _ => r_ms) redeem (fun _ => d_ms) (fun _ => late).

(** A quote that stays [UNPAID]: every redemption fails with [msg]. *)
Definition never_paid (msg : string) (r_ms d_ms late : N) : Env :=
  scripted (fun _ => Resolves (Some (quote_in "UNPAID")))
           (fun _ => Rejects (error_of msg)) r_ms d_ms late.

(** A quote the background watcher has already redeemed. *)
Definition already_issued_env : Env :=
  scripted (fun _ => Resolves (Some (quote_in "ISSUED")))
           (fun _ => Rejects (error_of "Mint quote already issued")) 2 150 1.

(** A store without the quote; the engine fails with [e]. *)
Definition unknown_quote (e : JsError) : Env :=
  scripted (fun _ => Resolves None) (fun _ => Rejects e) 2 150 1.

(** The engine says the quote was already issued while the store still
    shows it unpaid. *)
Definition stale_store : Env :=
  never_paid "Mint quote already issued" 2 150 1.

(** The background watcher redeems between the first read and the
    redemption: the first read shows [PAID], the engine refuses with
    [msg], later reads show [ISSUED]. *)
Definition minted_by_watcher (msg : string) : Env :=
  scripted (fun n => match n with
                     | O => Resolves (Some (quote_in "PAID"))
                     | S _ => Resolves (Some (quote_in "ISSUED"))
                     end)
           (fun _ => Rejects (error_of msg)) 2 150 1.

(** The first read shows [PAID], the engine refuses with [msg], and the
    store itself fails when read again. *)
Definition store_fails_on_reread (msg : string) : Env :=
  scripted (fun n => match n with
                     | O => Resolves (Some (quote_in "PAID"))
                     | S _ => Rejects (error_of "SQLITE_BUSY: database is locked")
                     end)
           (fun _ => Rejects (error_of msg)) 2 150 1.

(** Whether the next read of the store would show the quote issued. *)
Definition reread_issued (env : Env) (st : State) : bool :=
  match getMintQuote env (reads st) with
  | Resolves lq => isIssued lq
  | Rejects _ => false
  end.

(** The environment [env] with another answer of [getAllMints]. *)
Definition with_mints (env : Env) (mints : Settled (list Mint)) : Env :=
  mkEnv (parseInt env) mints (createMintQuote env) (getMintQuote env)
        (getMintQuote_ms env) (redeemMintQuote env) (redeemMintQuote_ms env)
        (setTimeout_late env).

(** A store read among the calls numbered [from] to [to - 1] showed the
    quote issued. *)
Definition seen_issued (env : Env) (from to : nat) : Prop :=
  exists k lq, (from <= k < to)%nat
               /\ getMintQuote env k = Resolves lq /\ isIssued lq = true.

(** A redemption among the calls numbered [from] to [to - 1] succeeded. *)
Definition redeemed (env : Env) (from to : nat) : Prop :=
  exists k u, (from <= k < to)%nat /\ redeemMintQuote env k = Resolves u.

(** ** The wait loop under any timeout *)

(** The value of [parseInt(args[2]) || 300000] as a JavaScript number: a
    finite number of milliseconds, or one of the infinities that [parseInt]
    gives for a digit string too long for a double. *)
Inductive JsTimeout : Type :=
| FiniteMs (ms : Z)
| PlusInfinity
| MinusInfinity.

(** [Date.now() - startTime < timeoutMs] *)
Definition before_timeout (elapsed : Z) (timeoutMs : JsTimeout) : bool :=
  match timeoutMs with
  | FiniteMs ms => elapsed <? ms
  | PlusInfinity => true
  | MinusInfinity => false
  end.

(** The loop of lines 112-152 again, for any such timeout; [None] when
    [fuel] rounds were not enough for it to end. *)
Fixpoint wait_loop_any (fuel : nat) (env : Env) (timeoutMs : JsTimeout)
  (startTime : Z) (st : State) : option (Res bool * State) :=
  match fuel with
  | O => None
  | S fuel' =>
      if before_timeout (now st - startTime) timeoutMs then
        match invoice_attempt env st with
        | (Ok true, st') => Some (Ok true, st')
        | (Ok false, st') => wait_loop_any fuel' env timeoutMs startTime st'
        | (Throw e, st') => Some (Throw e, st')
        | (Exit c, st') => Some (Exit c, st')
        end
      else Some (Ok false, st)
  end.

(** ** The other commands of the [switch] (lines 69-88, 207-345) *)

(** A prepared melt, the result of a melt and an entry of the history, as
    far as the program looks at them. *)
Record MeltOperation := mkMeltOperation {
  melt_id : string;
  melt_amount : Z;
  fee_reserve : Z
}.

Record MeltResult := mkMeltResult {
  melt_state : string;
  paid_amount : option Z
}.

Record HistoryEntry := mkHistoryEntry {
  createdAt : option Z;
  timestamp : option Z;
  h_type : option string;
  h_amount : Z;
  h_status : option string;
  h_state : option string;
  quoteId : option string;
  operationId : option string;
  h_mintUrl : string
}.

(** The rest of the coco manager: what each operation answers, given its
    arguments.  [getBalances] answers an object; the list is its
    [Object.entries], and each balance an integer number of sats held in a
    double. *)
Record Wallet := mkWallet {
  getBalances : Settled (list (string * Z));
  addMint : string -> Settled unit;
  prepareSend : string -> Z -> Settled string;
  executePreparedSend : string -> Settled string;
  getEncodedToken : string -> Settled string;
  prepareMeltBolt11 : string -> string -> Settled MeltOperation;
  executeMelt : string -> Settled MeltResult;
  getPaginatedHistory : Z -> Z -> Settled (list HistoryEntry);
  restore : string -> Settled unit;
  receive : string -> Settled unit
}.

(** The calls made to the wallet, with their arguments. *)
Inductive Call : Type :=
| CallGetBalances
| CallAddMint (url : string) (trusted_ : bool)
| CallPrepareSend (url : string) (amount : Z)
| CallExecutePreparedSend (id : string)
| CallPrepareMeltBolt11 (url invoice : string)
| CallExecuteMelt (id : string)
| CallGetPaginatedHistory (offset limit : Z)
| CallRestore (url : string)
| CallReceive (token : string).

(** A sum of balances as the double it is: an integer, or an infinity
    after an overflow. *)
Inductive JsSum : Type :=
| Finite (z : Z)
| PositiveInfinity
| NegativeInfinity.

(** The double nearest to the integer [s], ties to the even significand
    (IEEE 754 round-to-nearest-even).  Integers up to 2^53 in size are
    doubles themselves; above, a double keeps 53 significant bits; from
    2^1024 on the result is an infinity. *)
Definition round_to_double (s : Z) : JsSum :=
  let a := Z.abs s in
  if a <? 2 ^ 53 then Finite s
  else
    let e := Z.log2 a - 52 in
    let q := a / 2 ^ e in
    let r := a mod 2 ^ e in
    let half := 2 ^ (e - 1) in
    let q' := if r <? half then q
              else if half <? r then q + 1
              else if Z.even q then q else q + 1 in
    let v := q' * 2 ^ e in
    if 2 ^ 1024 <=? v
    then (if 0 <? s then PositiveInfinity else NegativeInfinity)
    else Finite (Z.sgn s * v).

(** [total += balance] (line 75): the sum of two doubles is their exact sum
    rounded to a double; an infinity stays what it is. *)
Definition js_add (total : JsSum) (balance : Z) : JsSum :=
  match total with
  | Finite t => round_to_double (t + balance)
  | PositiveInfinity => PositiveInfinity
  | NegativeInfinity => NegativeInfinity
  end.

(** The identifier shown at the end of a history line. *)
Inductive IdInfo : Type :=
| NoId
| QuoteIdInfo (q : option string)
| OpIdInfo (o : option string).

(** What these commands write.  [LogHistoryItem] keeps the argument given
    to [new Date], the type before [toUpperCase], whether the amount gets a
    plus sign, the amount, the mint, the status and the identifier. *)
Inductive Line : Type :=
| LogBalancesHeader
| LogBalance (mint : string) (balance : Z)
| LogTotal (total : JsSum)
| ErrUsageAddMint
| LogMintAdded (url : string)
| ErrUsageSend
| ErrNoMintAddOne
| LogToken (encoded : string)
| ErrSendFailed (url : string) (msg : option string)
| ErrUsagePayInvoice
| LogPaying (url : string)
| LogPreparingMelt (id : string)
| LogMeltAmount (amount : Z)
| LogFeeReserve (fee : Z)
| LogPaymentSuccessful
| LogMeltState (s : string)
| LogAmountPaid (amount : Z)
| ErrPayingInvoice (msg : option string)
| LogMintsHeader
| LogMint (url : string) (trusted_ : bool)
| LogNoHistory
| LogHistoryHeader (items : nat)
| LogHistoryItem (date : option Z) (type_ : string) (plus : bool)
    (amount : Z) (mint : string) (status : string) (id : IdInfo)
| ErrUsageRestore
| LogRestoring (url : string)
| LogRestoreCompleted
| ErrRestoreFailed (msg : option string)
| ErrUsageReceive
| LogTokenReceived
| ErrReceiving (msg : option string)
| LogHelp.

(** The process state of the whole program: the state of the two
    reconciling commands, the calls made to the wallet and the lines the
    other commands wrote, newest first. *)
Record World := mkWorld {
  core : State;
  calls : list Call;
  lines : list Line
}.

Definition new_world (t : Z) : World := mkWorld (init t) [] [].

Definition W (A : Type) : Type := World -> Res A * World.

Definition retW {A} (a : A) : W A := fun w => (Ok a, w).

Definition bindW {A B} (m : W A) (k : A -> W B) : W B := fun w =>
  match m w with
  | (Ok a, w') => k a w'
  | (Throw e, w') => (Throw e, w')
  | (Exit c, w') => (Exit c, w')
  end.

Definition exitW {A} (code : Z) : W A := fun w => (Exit code, w).

Definition try_catchW {A} (m : W A) (h : JsError -> W A) : W A := fun w =>
  match m w with
  | (Throw e, w') => h e w'
  | r => r
  end.

(** A step of the reconciling commands, run on the [core] of the world. *)
Definition lift {A} (m : M A) : W A := fun w =>
  let (r, st') := m (core w) in (r, mkWorld st' (calls w) (lines w)).

Definition write (l : Line) : W unit := fun w =>
  (Ok tt, mkWorld (core w) (calls w) (l :: lines w)).

(** An awaited call to the wallet: it is recorded, then it settles. *)
Definition call {A} (c : Call) (p : Settled A) : W A := fun w =>
  let w' := mkWorld (core w) (c :: calls w) (lines w) in
  match p with
  | Resolves a => (Ok a, w')
  | Rejects e => (Throw e, w')
  end.

(** A function of the library that may throw. *)
Definition apply_ {A} (p : Settled A) : W A := fun w =>
  match p with
  | Resolves a => (Ok a, w)
  | Rejects e => (Throw e, w)
  end.

Declare Scope wallet_scope.
Delimit Scope wallet_scope with wallet.
Notation "x <- m ;; k" := (bindW m (fun x => k))
  (at level 61, m at next level, right associativity) : wallet_scope.
Notation "m ;; k" := (bindW m (fun _ => k))
  (at level 61, right associativity) : wallet_scope.

(** A number-or-NaN is falsy when it is NaN or 0. *)
Definition falsy_number (v : option Z) : bool :=
  match v with
  | Some z => z =? 0
  | None => true
  end.

(** [a || b] on numbers-or-undefined. *)
Definition or_number (a b : option Z) : option Z :=
  if falsy_number a then b else a.

(** [a || b] on strings-or-undefined. *)
Definition or_string (a b : option string) : option string :=
  if truthy a then a else b.

(** [for (...) { console.log(...); total += balance }] (lines 73-76) *)
Fixpoint balance_loop (entries : list (string * Z)) (total : JsSum) : W JsSum :=
  match entries with
  | [] => retW total
  | (mint, balance) :: rest =>
      (write (LogBalance mint balance) ;;
       balance_loop rest (js_add total balance))%wallet
  end.

(** [case 'balance'] (lines 69-79) *)
Definition case_balance (coco : Wallet) : W unit :=
  (balances <- call CallGetBalances (getBalances coco) ;;
   write LogBalancesHeader ;;
   total <- balance_loop balances (Finite 0) ;;
   write (LogTotal total))%wallet.

(** [case 'add-mint'] (lines 81-88) *)
Definition case_add_mint (coco : Wallet) (args : list string) : W unit :=
  match nth_error args 0 with
  | Some url =>
      if negb (truthy (Some url))
      then (write ErrUsageAddMint ;; exitW 1)%wallet
      else (call (CallAddMint url true) (addMint coco url) ;;
            write (LogMintAdded url))%wallet
  | None => (write ErrUsageAddMint ;; exitW 1)%wallet
  end.

(** [case 'send'] (lines 207-231) *)
Definition case_send (env : Env) (coco : Wallet) (args : list string) : W unit :=
  let sendAmount :=
    match nth_error args 0 with
    | Some s => parseInt env s
    | None => None
    end in
  (sendMintUrl <- lift (mintUrl_or_first env (nth_error args 1)) ;;
   match sendAmount with
   | Some amount =>
       if falsy_number sendAmount then write ErrUsageSend ;; exitW 1
       else
         match sendMintUrl with
         | Some url =>
             if negb (truthy sendMintUrl)
             then write ErrNoMintAddOne ;; exitW 1
             else
               try_catchW
                 (id <- call (CallPrepareSend url amount)
                             (prepareSend coco url amount) ;;
                  token <- call (CallExecutePreparedSend id)
                                (executePreparedSend coco id) ;;
                  encodedToken <- apply_ (getEncodedToken coco token) ;;
                  write (LogToken encodedToken))
                 (fun error =>
                    write (ErrSendFailed url (message error)) ;; exitW 1)
         | None => write ErrNoMintAddOne ;; exitW 1
         end
   | None => write ErrUsageSend ;; exitW 1
   end)%wallet.

(** [case 'pay-invoice'] (lines 233-264) *)
Definition case_pay_invoice (env : Env) (coco : Wallet) (args : list string)
  : W unit :=
  match nth_error args 0 with
  | Some payInvoice =>
      if negb (truthy (Some payInvoice))
      then (write ErrUsagePayInvoice ;; exitW 1)%wallet
      else
        (payMintUrl <- lift (mintUrl_or_first env (nth_error args 1)) ;;
         match payMintUrl with
         | Some url =>
             if negb (truthy payMintUrl)
             then write ErrNoMintAddOne ;; exitW 1
             else
               write (LogPaying url) ;;
               try_catchW
                 (operation <- call (CallPrepareMeltBolt11 url payInvoice)
                                    (prepareMeltBolt11 coco url payInvoice) ;;
                  write (LogPreparingMelt (melt_id operation)) ;;
                  write (LogMeltAmount (melt_amount operation)) ;;
                  write (LogFeeReserve (fee_reserve operation)) ;;
                  result <- call (CallExecuteMelt (melt_id operation))
                                 (executeMelt coco (melt_id operation)) ;;
                  write LogPaymentSuccessful ;;
                  write (LogMeltState (melt_state result)) ;;
                  match paid_amount result with
                  | Some a =>
                      if falsy_number (paid_amount result) then retW tt
                      else write (LogAmountPaid a)
                  | None => retW tt
                  end)
                 (fun error =>
                    write (ErrPayingInvoice (message error)) ;; exitW 1)
         | None => write ErrNoMintAddOne ;; exitW 1
         end)%wallet
  | None => (write ErrUsagePayInvoice ;; exitW 1)%wallet
  end.

(** [mints.forEach(m => console.log(...))] (line 269) *)
Fixpoint mints_loop (mints : list Mint) : W unit :=
  match mints with
  | [] => retW tt
  | m :: rest => (write (LogMint (mintUrl m) (trusted m)) ;; mints_loop rest)%wallet
  end.

(** [case 'mints'] (lines 266-271) *)
Definition case_mints (env : Env) : W unit :=
  (mints <- lift (await (getAllMints env)) ;;
   write LogMintsHeader ;;
   mints_loop mints)%wallet.

(** The body of the [forEach] of [history] (lines 282-292). *)
Definition history_line (h : HistoryEntry) : Line :=
  let date := or_number (createdAt h) (timestamp h) in
  let type_ := match or_string (h_type h) (Some "UNKNOWN") with
               | Some t => t
               | None => "UNKNOWN"
               end in
  let plus := 0 <? h_amount h in
  let status := match or_string (or_string (h_status h) (h_state h))
                                (Some "COMPLETED") with
                | Some s => s
                | None => "COMPLETED"
                end in
  let idInfo :=
    match h_type h with
    | Some t =>
        if ((t =? "mint") || (t =? "melt"))%string then QuoteIdInfo (quoteId h)
        else if (t =? "send")%string then OpIdInfo (operationId h)
        else NoId
    | None => NoId
    end in
  LogHistoryItem date type_ plus (h_amount h) (h_mintUrl h) status idInfo.

Fixpoint history_loop (history : list HistoryEntry) : W unit :=
  match history with
  | [] => retW tt
  | h :: rest => (write (history_line h) ;; history_loop rest)%wallet
  end.

(** [case 'history'] (lines 273-296) *)
Definition case_history (env : Env) (coco : Wallet) (args : list string) : W unit :=
  let limit := parseInt_or env (nth_error args 0) 20 in
  let offset := parseInt_or env (nth_error args 1) 0 in
  (history <- call (CallGetPaginatedHistory offset limit)
                   (getPaginatedHistory coco offset limit) ;;
   match history with
   | [] => write LogNoHistory
   | _ :: _ =>
       write (LogHistoryHeader (List.length history)) ;;
       history_loop history
   end)%wallet.

(** [case 'restore'] (lines 298-312) *)
Definition case_restore (coco : Wallet) (args : list string) : W unit :=
  match nth_error args 0 with
  | Some url =>
      if negb (truthy (Some url))
      then (write ErrUsageRestore ;; exitW 1)%wallet
      else
        (write (LogRestoring url) ;;
         try_catchW
           (call (CallRestore url) (restore coco url) ;;
            write LogRestoreCompleted)
           (fun error =>
              write (ErrRestoreFailed (message error)) ;; exitW 1))%wallet
  | None => (write ErrUsageRestore ;; exitW 1)%wallet
  end.

(** [case 'receive'] (lines 314-327) *)
Definition case_receive (coco : Wallet) (args : list string) : W unit :=
  match nth_error args 0 with
  | Some token =>
      if negb (truthy (Some token))
      then (write ErrUsageReceive ;; exitW 1)%wallet
      else
        try_catchW
          (call (CallReceive token) (receive coco token) ;;
           write LogTokenReceived)%wallet
          (fun error =>
             write (ErrReceiving (message error)) ;; exitW 1)%wallet
  | None => (write ErrUsageReceive ;; exitW 1)%wallet
  end.

(** [case 'invoice'] and [case 'check-invoice'], run on the [core]. *)
Definition lift_case (body : State -> option (Res unit * State)) (w : World)
  : option (Res unit * World) :=
  match body (core w) with
  | Some (r, st') => Some (r, mkWorld st' (calls w) (lines w))
  | None => None
  end.

(** The whole [switch] (lines 68-345); [command] is [process.argv[2]]. *)
Definition switch (env : Env) (coco : Wallet) (command : option string)
  (args : list string) (w : World) : option (Res unit * World) :=
  match command with
  | Some c =>
      if (c =? "balance")%string then Some (case_balance coco w)
      else if (c =? "add-mint")%string then Some (case_add_mint coco args w)
      else if (c =? "invoice")%string then lift_case (case_invoice env args) w
      else if (c =? "check-invoice")%string
      then Some (lift (case_check_invoice env args) w)
      else if (c =? "send")%string then Some (case_send env coco args w)
      else if (c =? "pay-invoice")%string
      then Some (case_pay_invoice env coco args w)
      else if (c =? "mints")%string then Some (case_mints env w)
      else if (c =? "history")%string then Some (case_history env coco args w)
      else if (c =? "restore")%string then Some (case_restore coco args w)
      else if (c =? "receive")%string then Some (case_receive coco args w)
      else Some (write LogHelp w)
  | None => Some (write LogHelp w)
  end.

(** [main] for every command (lines 66-68 and 346-354): the exit code of
    the process and its last state.  As in [case_invoice], the timeout of
    [invoice] is a finite number here. *)
Definition main_all (env : Env) (coco : Wallet) (command : option string)
  (args : list string) (w : World) : option (Z * World) :=
  match switch env coco command args w with
  | Some (Ok _, w') =>
      Some (0, mkWorld (cleanup (core w')) (calls w') (lines w'))
  | Some (Throw error, w') =>
      Some (1, mkWorld (cleanup (emit (ErrError (message error)) (core w')))
                       (calls w') (lines w'))
  | Some (Exit code, w') => Some (code, w')
  | None => None
  end.

(** ** Start-up: the wallet directory and the seed (lines 11-40) *)

(** Which of the two directories exist. *)
Record Dirs := mkDirs {
  wallet_dir : bool;       (* ~/.cashu-wallet *)
  old_wallet_dir : bool    (* ~/.coco-wallet *)
}.

Inductive StartupLine : Type :=
| LogMigrated
| ErrMigration (error : JsError).

(** Lines 16-29.  [renameSync] and [mkdirSync] succeed ([None]) or throw;
    a rename that succeeds moves the old directory to the new place.  The
    throw of [renameSync] is caught, that of [mkdirSync] is not. *)
Definition startup (rename_throws mkdir_throws : option JsError) (d : Dirs)
  : Res unit * Dirs * list StartupLine :=
  let (d1, written) :=
    if negb (wallet_dir d) && old_wallet_dir d then
      match rename_throws with
      | None => (mkDirs true false, [LogMigrated])
      | Some err => (d, [ErrMigration err])
      end
    else (d, []) in
  if negb (wallet_dir d1) then
    match mkdir_throws with
    | None => (Ok tt, mkDirs true (old_wallet_dir d1), written)
    | Some err => (Throw err, d1, written)
    end
  else (Ok tt, d1, written).

(** [buf.toString('hex')]: two lower-case digits a byte. *)
Definition hex_digit (n : N) : ascii :=
  match n with
  | 0%N => "0" | 1%N => "1" | 2%N => "2" | 3%N => "3" | 4%N => "4"
  | 5%N => "5" | 6%N => "6" | 7%N => "7" | 8%N => "8" | 9%N => "9"
  | 10%N => "a" | 11%N => "b" | 12%N => "c" | 13%N => "d" | 14%N => "e"
  | _ => "f"
  end%char.

Fixpoint toString_hex (bytes : list Byte.byte) : string :=
  match bytes with
  | [] => ""
  | b :: rest =>
      String (hex_digit (Byte.to_N b / 16))
             (String (hex_digit (Byte.to_N b mod 16)) (toString_hex rest))
  end.

(** The value of a hexadecimal digit of either case. *)
Definition hex_value (c : ascii) : option N :=
  let n := N_of_ascii c in
  if ((48 <=? n) && (n <=? 57))%N then Some (n - 48)%N
  else if ((97 <=? n) && (n <=? 102))%N then Some (n - 87)%N
  else if ((65 <=? n) && (n <=? 70))%N then Some (n - 55)%N
  else None.

Definition byte_of_nibbles (hi lo : N) : Byte.byte :=
  match Byte.of_N (16 * hi + lo) with
  | Some b => b
  | None => Byte.x00
  end.

(** [Buffer.from(s, 'hex')]: pairs of digits, up to the first pair that is
    not hexadecimal or the single digit left at the end. *)
Fixpoint Buffer_from_hex (s : string) : list Byte.byte :=
  match s with
  | String a (String b rest) =>
      match hex_value a, hex_value b with
      | Some hi, Some lo => byte_of_nibbles hi lo :: Buffer_from_hex rest
      | _, _ => []
      end
  | _ => []
  end.

(** The seed file: its text if it exists, and whether reading or writing
    it throws. *)
Record Disk := mkDisk {
  seed_txt : option string;
  io_throws : option JsError
}.

(** [seedGetter] (lines 32-40); [randomBytes] is the source of entropy. *)
Definition seedGetter (randomBytes : nat -> list Byte.byte) (disk : Disk)
  : Res (list Byte.byte) * Disk :=
  match seed_txt disk with
  | Some text =>
      match io_throws disk with
      | None => (Ok (Buffer_from_hex text), disk)
      | Some err => (Throw err, disk)
      end
  | None =>
      let seed := randomBytes 64%nat in
      match io_throws disk with
      | None => (Ok seed, mkDisk (Some (toString_hex seed)) (io_throws disk))
      | Some err => (Throw err, disk)
      end
  end.

(** What every [case] of the switch keeps: the cleanup flag, and 1 as the
    only code of a [process.exit] inside it. *)
Definition keeps (before : State) (r : Res unit) (after : State) : Prop :=
  disposed after = disposed before /\ (forall c, r = Exit c -> c = 1).

(** A wallet whose every operation succeeds, and one whose every operation
    is refused with [msg]. *)
Definition willing_wallet : Wallet :=
  mkWallet (Resolves [("https://mint.example", 700); ("https://other.example", 42)])
           (fun _ => Resolves tt)
           (fun _ _ => Resolves "op-1")
           (fun _ => Resolves "token-1")
           (fun t => Resolves ("cashuB" ++ t))
           (fun _ _ => Resolves (mkMeltOperation "melt-1" 100 2))
           (fun _ => Resolves (mkMeltResult "PAID" (Some 100)))
           (fun _ _ => Resolves [])
           (fun _ => Resolves tt)
           (fun _ => Resolves tt).

Definition refusing_wallet (msg : string) : Wallet :=
  mkWallet (Rejects (error_of msg))
           (fun _ => Rejects (error_of msg))
           (fun _ _ => Rejects (error_of msg))
           (fun _ => Rejects (error_of msg))
           (fun _ => Rejects (error_of msg))
           (fun _ _ => Rejects (error_of msg))
           (fun _ => Rejects (error_of msg))
           (fun _ _ => Rejects (error_of msg))
           (fun _ => Rejects (error_of msg))
           (fun _ => Rejects (error_of msg)).

(** The commands the [switch] knows. *)
Definition known_commands : list string :=
  ["balance"; "add-mint"; "invoice"; "check-invoice"; "send"; "pay-invoice";
   "mints"; "history"; "restore"; "receive"].

(** What [arg || (await coco.mint.getAllMints())[0]?.mintUrl] evaluates
    to: [mintUrl_or_first] without the state it passes through. *)
Definition found_mint (env : Env) (arg : option string) : Res (option string) :=
  if truthy arg then Ok arg
  else match getAllMints env with
       | Resolves mints => Ok (option_map mintUrl (hd_error mints))
       | Rejects e => Throw e
       end.

(** Collaborators whose [parseInt] reads every argument as [z]. *)
Definition reading_as (z : Z) : Env :=
  mkEnv (fun _ => Some z) (Resolves [the_mint]) (Resolves (quote_in "UNPAID"))
        (fun _ => Resolves None) (fun _ => 0%N) (fun _ => Resolves tt)
        (fun _ => 0%N) (fun _ => 0%N).

(** ** Proof automation *)

(** Unfold the monad and the calls, split on what the collaborators
    answer, and compute the fields of the resulting states. *)
Ltac js_unfold :=
  unfold invoice_attempt, invoice_try, invoice_catch,
    check_attempt, check_try, check_catch,
    mintQuoteRepository_getMintQuote, quotes_redeemMintQuote,
    try_catch, bind, ret, throw, process_exit, console, sleep, await in *;
  cbv beta in *.

Ltac js_state :=
  cbn [now reads redeems sleeps out disposed fst snd
       after_read after_redeem after_sleep count_read count_redeem
       count_sleep advance emit cleanup dispose] in *;
  unfold pollInterval in *.

Ltac js_red := cbv beta iota zeta delta [fst snd].

Ltac js_case_on t := destruct t eqn:?; js_red.

Ltac js_cases :=
  js_red;
  repeat match goal with
         | |- context [invoice_duplicate_signal ?m] =>
             js_case_on (invoice_duplicate_signal m)
         | |- context [check_duplicate_signal ?m] =>
             js_case_on (check_duplicate_signal m)
         | |- context [invoice_pending_signal ?m] =>
             js_case_on (invoice_pending_signal m)
         | |- context [check_pending_signal ?m] =>
             js_case_on (check_pending_signal m)
         | |- context [getMintQuote ?e ?k] => js_case_on (getMintQuote e k)
         | |- context [redeemMintQuote ?e ?k] => js_case_on (redeemMintQuote e k)
         | |- context [isIssued ?q] => js_case_on (isIssued q)
         end.

Ltac w_unfold :=
  unfold case_balance, case_add_mint, case_send, case_pay_invoice,
    case_mints, case_history, case_restore, case_receive,
    bindW, retW, exitW, try_catchW, write, call, apply_ in *;
  cbv beta in *.

Ltac w_red := cbn [fst snd core calls lines].

Ltac w_case_step :=
  match goal with
  | |- context [match ?x with _ => _ end] =>
      lazymatch x with
      | context [match _ with _ => _ end] => fail
      | _ => destruct x eqn:?
      end
  end.

(** * Properties *)

(** ** Substrings *)

Section Substrings.

Lemma prefix_includes (s p : string) :
  String.prefix p s = true -> includes s p = true.
Proof. intros H. destruct s; simpl in *; rewrite H; reflexivity. Qed.

Lemma includes_tail (c : ascii) (s p : string) :
  includes s p = true -> includes (String c s) p = true.
Proof. intros H. simpl. rewrite H. apply orb_true_r. Qed.

Lemma prefix_cons (c d : ascii) (p s : string) :
  String.prefix (String c p) (String d s) = true ->
  c = d /\ String.prefix p s = true.
Proof.
  simpl. destruct (ascii_dec c d) as [->|]; [auto | discriminate].
Qed.

(** A match of [a ++ b] at the front of [s] is a match of [b] inside. *)
Lemma prefix_append_includes (a b : string) :
  forall s, String.prefix (a ++ b) s = true -> includes s b = true.
Proof.
  induction a as [|c a IH]; intros s H.
  - now apply prefix_includes.
  - destruct s as [|d s]; [discriminate H|].
    apply prefix_cons in H as [_ H]. apply includes_tail, IH, H.
Qed.

Lemma includes_append_r (a b s : string) :
  includes s (a ++ b) = true -> includes s b = true.
Proof.
  induction s as [|d s IH]; simpl; intros H.
  - apply orb_true_iff in H as [H|H]; [|discriminate].
    apply (prefix_append_includes a b "" H).
  - apply orb_true_iff in H as [H|H].
    + apply (prefix_append_includes a b (String d s) H).
    + rewrite (IH H). apply orb_true_r.
Qed.

Lemma prefix_toLowerCase (p : string) :
  forall s, String.prefix p s = true ->
            String.prefix (toLowerCase p) (toLowerCase s) = true.
Proof.
  induction p as [|c p IH]; intros s H; [now destruct s|].
  destruct s as [|d s]; [discriminate H|].
  apply prefix_cons in H as [-> H]. simpl.
  destruct (ascii_dec _ _) as [_|n]; [now apply IH | now destruct n].
Qed.

(** A case-sensitive match is in particular a match ignoring case. *)
Lemma includes_spec_contains (p s : string) :
  includes s p = true -> spec_contains s p = true.
Proof.
  unfold spec_contains. induction s as [|d s IH]; simpl; intros H.
  - apply orb_true_iff in H as [H|H]; [|discriminate].
    apply (prefix_toLowerCase p "") in H. simpl in H. now rewrite H.
  - apply orb_true_iff in H as [H|H].
    + apply (prefix_toLowerCase p (String d s)) in H. simpl in H.
      now rewrite H.
    + rewrite (IH H). apply orb_true_r.
Qed.

End Substrings.

(** The two extra patterns of the loop's pending test add nothing: both
    contain "not paid". *)
Lemma invoice_pending_is_check_pending (m : string) :
  invoice_pending_signal m = check_pending_signal m.
Proof.
  unfold invoice_pending_signal, check_pending_signal.
  destruct (includes m "PENDING"); [reflexivity|].
  destruct (includes m "not paid") eqn:E; [reflexivity|].
  destruct (includes m "UNPAID"); [reflexivity|]. simpl.
  destruct (includes m "Quote not paid") eqn:E1.
  - apply (includes_append_r "Quote " "not paid") in E1. congruence.
  - destruct (includes m "quote not paid") eqn:E2; [|reflexivity].
    apply (includes_append_r "quote " "not paid") in E2. congruence.
Qed.

(** Every message the code takes for a duplicate the specification's
    case-insensitive patterns take for one too; likewise for pending. *)
Lemma invoice_duplicate_within_spec (m : string) :
  invoice_duplicate_signal m = true -> spec_duplicate_signal m = true.
Proof.
  unfold invoice_duplicate_signal, spec_duplicate_signal. intros H.
  apply orb_true_iff in H as [H|H]; [apply orb_true_iff in H as [H|H]|].
  - now rewrite (includes_spec_contains _ _ H).
  - rewrite (includes_spec_contains _ _ H). now rewrite orb_true_r.
  - apply (includes_append_r "Tokens " "already minted") in H.
    rewrite (includes_spec_contains _ _ H). now rewrite !orb_true_r.
Qed.

Lemma invoice_pending_within_spec (m : string) :
  invoice_pending_signal m = true -> spec_pending_signal m = true.
Proof.
  rewrite invoice_pending_is_check_pending.
  unfold check_pending_signal, spec_pending_signal. intros H.
  apply orb_true_iff in H as [H|H]; [apply orb_true_iff in H as [H|H]|].
  - now rewrite (includes_spec_contains _ _ H).
  - rewrite (includes_spec_contains _ _ H). now rewrite orb_true_r.
  - rewrite (includes_spec_contains _ _ H). now rewrite !orb_true_r.
Qed.

Lemma check_duplicate_is_invoice_duplicate (m : string) :
  check_duplicate_signal m = true -> invoice_duplicate_signal m = true.
Proof.
  unfold check_duplicate_signal, invoice_duplicate_signal.
  intros ->. reflexivity.
Qed.

(** ** One attempt *)

(** What the loop's handler does with [error], given what the second
    read of the store answers. *)
Lemma invoice_catch_resolved (env : Env) (error : JsError) (st : State)
  (lq : option MintQuote) :
  getMintQuote env (reads st) = Resolves lq ->
  invoice_catch env error st =
    let m := message_or_empty error in
    let st1 := if invoice_duplicate_signal m then after_read env st else st in
    if invoice_duplicate_signal m && isIssued lq then (Ok true, st1)
    else if invoice_pending_signal m
         then (Ok false, after_sleep env pollInterval (emit StdoutDot st1))
         else (Throw error, st1).
Proof.
  intros H. js_unfold.
  destruct (invoice_duplicate_signal (message_or_empty error)); simpl;
    [rewrite H; destruct (isIssued lq); simpl|];
    destruct (invoice_pending_signal (message_or_empty error)); reflexivity.
Qed.

(** The same for the manual handler. *)
Lemma check_catch_resolved (env : Env) (error : JsError) (st : State)
  (lq : option MintQuote) :
  getMintQuote env (reads st) = Resolves lq ->
  check_catch env error st =
    let m := message_or_empty error in
    let st1 := if check_duplicate_signal m then after_read env st else st in
    if check_duplicate_signal m && isIssued lq then (Ok tt, emit LogPaid st1)
    else if check_pending_signal m
         then (Ok tt, emit LogNotPaidYet st1)
         else (Exit 1, emit (ErrRedeeming (message error)) st1).
Proof.
  intros H. js_unfold.
  destruct (check_duplicate_signal (message_or_empty error)); simpl;
    [rewrite H; destruct (isIssued lq); simpl|];
    destruct (check_pending_signal (message_or_empty error)); reflexivity.
Qed.

(** A message that matches nothing makes no second read at all. *)
Lemma invoice_catch_unmatched (env : Env) (error : JsError) (st : State) :
  invoice_duplicate_signal (message_or_empty error) = false ->
  invoice_pending_signal (message_or_empty error) = false ->
  invoice_catch env error st = (Throw error, st).
Proof. intros Hd Hp. js_unfold. now rewrite Hd, Hp. Qed.

Lemma check_catch_unmatched (env : Env) (error : JsError) (st : State) :
  check_duplicate_signal (message_or_empty error) = false ->
  check_pending_signal (message_or_empty error) = false ->
  check_catch env error st =
    (Exit 1, emit (ErrRedeeming (message error)) st).
Proof. intros Hd Hp. js_unfold. now rewrite Hd, Hp. Qed.

(** The handlers never call the engine. *)
Lemma invoice_catch_redeems (env : Env) (error : JsError) (st : State) :
  redeems (snd (invoice_catch env error st)) = redeems st.
Proof. js_unfold. js_cases; reflexivity. Qed.

Lemma check_catch_redeems (env : Env) (error : JsError) (st : State) :
  redeems (snd (check_catch env error st)) = redeems st.
Proof. js_unfold. js_cases; reflexivity. Qed.

(** The clock never runs backwards during an attempt, and an attempt that
    goes round again has slept. *)
Lemma invoice_catch_clock (env : Env) (error : JsError) (st : State) :
  now st <= now (snd (invoice_catch env error st)) /\
  (fst (invoice_catch env error st) = Ok false ->
   now st + pollInterval <= now (snd (invoice_catch env error st))).
Proof.
  js_unfold. js_cases; split; intros; try discriminate; js_state; lia.
Qed.

Lemma invoice_attempt_clock (env : Env) (st : State) :
  forall st', invoice_attempt env st = (Ok false, st') ->
              now st + pollInterval <= now st'.
Proof.
  intros st' H. unfold invoice_attempt, try_catch in H.
  destruct (invoice_try env st) as [[b|e|c] st1] eqn:Ht.
  - (* the try block only ever returns [true] *)
    revert Ht. js_unfold. js_cases; intros Ht; inversion Ht; subst;
      inversion H.
  - assert (now st <= now st1) as Hle.
    { revert Ht. js_unfold. js_cases; intros Ht; inversion Ht; subst;
        js_state; lia. }
    destruct (invoice_catch_clock env e st1) as [_ Hc].
    rewrite H in Hc. simpl in Hc. specialize (Hc eq_refl). lia.
  - inversion H.
Qed.

(** ** The loop returns *)

Section Loop.

Variable env : Env.
Variables timeoutMs startTime : Z.

Lemma wait_loop_unfold (fuel : nat) (st : State) :
  wait_loop (S fuel) env timeoutMs startTime st =
    if now st - startTime <? timeoutMs then
      match invoice_attempt env st with
      | (Ok true, st') => Some (Ok true, st')
      | (Ok false, st') => wait_loop fuel env timeoutMs startTime st'
      | (Throw e, st') => Some (Throw e, st')
      | (Exit c, st') => Some (Exit c, st')
      end
    else Some (Ok false, st).
Proof. reflexivity. Qed.

(** More fuel never changes a result. *)
Lemma wait_loop_more_fuel :
  forall (fuel : nat) (st : State) (r : Res bool * State),
    wait_loop fuel env timeoutMs startTime st = Some r ->
    forall fuel', (fuel <= fuel')%nat ->
                  wait_loop fuel' env timeoutMs startTime st = Some r.
Proof.
  induction fuel as [|fuel IH]; intros st r H fuel' Hle; [discriminate|].
  destruct fuel' as [|fuel']; [lia|].
  rewrite wait_loop_unfold in *.
  destruct (now st - startTime <? timeoutMs); [|exact H].
  destruct (invoice_attempt env st) as [[[|]|e|c] st']; auto.
  apply IH; [exact H | lia].
Qed.

(** Each round that does not end the loop costs [pollInterval] of the
    remaining time, so the loop ends. *)
Lemma wait_loop_returns :
  forall (fuel : nat) (st : State),
    timeoutMs - (now st - startTime) <= pollInterval * Z.of_nat fuel ->
    exists r, wait_loop (S fuel) env timeoutMs startTime st = Some r.
Proof.
  induction fuel as [|fuel IH]; intros st Hrem;
    rewrite wait_loop_unfold;
    destruct (Z.ltb_spec (now st - startTime) timeoutMs) as [Hlt|Hge];
    try (eexists; reflexivity).
  - unfold pollInterval in Hrem. lia.
  - destruct (invoice_attempt env st) as [[[|]|e|c] st'] eqn:Ha;
      try (eexists; reflexivity).
    apply IH. apply invoice_attempt_clock in Ha.
    unfold pollInterval in *. lia.
Qed.

End Loop.

Lemma enough_fuel_covers (timeoutMs : Z) :
  timeoutMs <= pollInterval * Z.of_nat (Z.to_nat (timeoutMs / pollInterval + 1)).
Proof.
  unfold pollInterval.
  pose proof (Z.mul_succ_div_gt timeoutMs 5000 ltac:(lia)) as H.
  lia.
Qed.

(** The wait loop of [invoice] with the finite timeout [timeoutMs] always
    ends, whatever the collaborators answer and however long they take. *)
Lemma wait_for_payment_returns (env : Env) (timeoutMs : Z) (st : State) :
  exists r, wait_for_payment env timeoutMs st = Some r.
Proof.
  unfold wait_for_payment, enough_fuel. apply wait_loop_returns.
  pose proof (enough_fuel_covers timeoutMs). lia.
Qed.

(** So does the whole command. *)
Lemma main_returns (env : Env) (command : Command) (args : list string)
  (st : State) :
  exists code st', main env command args st = Some (code, st').
Proof.
  unfold main. destruct command.
  - unfold case_invoice.
    destruct (invoice_setup env args st) as [[[[t url] q]|e|c] st1];
      try (eexists; eexists; reflexivity).
    destruct (wait_for_payment_returns env t st1) as [[[paid|e|c] st2] ->];
      try (eexists; eexists; reflexivity).
    destruct (invoice_report paid url q st2) as [[u|e|c] st3];
      eexists; eexists; reflexivity.
  - destruct (case_check_invoice env args st) as [[u|e|c] st1];
      eexists; eexists; reflexivity.
Qed.

(** A loop that is allowed one more round and whose attempt ends it. *)
Lemma wait_for_payment_first (env : Env) (timeoutMs : Z) (st : State) :
  0 < timeoutMs ->
  wait_for_payment env timeoutMs st =
    match invoice_attempt env st with
    | (Ok false, st') =>
        wait_loop (Z.to_nat (timeoutMs / pollInterval + 1)) env timeoutMs
                  (now st) st'
    | r => Some r
    end.
Proof.
  intros Hpos. unfold wait_for_payment, enough_fuel.
  rewrite wait_loop_unfold.
  replace (now st - now st) with 0 by lia.
  destruct (Z.ltb_spec 0 timeoutMs); [|lia].
  destruct (invoice_attempt env st) as [[[|]|e|c] st']; reflexivity.
Qed.

(** ** A quote already issued when it is read *)

Lemma invoice_attempt_issued (env : Env) (st : State) (q : MintQuote) :
  getMintQuote env (reads st) = Resolves (Some q) ->
  state q = "ISSUED" ->
  invoice_attempt env st = (Ok true, after_read env st).
Proof.
  intros Hread Hq. js_unfold. rewrite Hread. js_red.
  unfold isIssued. rewrite Hq. reflexivity.
Qed.

Lemma check_attempt_issued (env : Env) (st : State) (q : MintQuote) :
  getMintQuote env (reads st) = Resolves (Some q) ->
  state q = "ISSUED" ->
  check_attempt env st = (Ok tt, emit LogPaid (after_read env st)).
Proof.
  intros Hread Hq. js_unfold. rewrite Hread. js_red.
  unfold isIssued. rewrite Hq. reflexivity.
Qed.

(** C2: when the read of the Quote Store that opens an attempt answers a
    quote in state ISSUED, the Reconciliation Loop (in whichever round it
    is, the first included) and Manual Reconciliation both resolve as
    success at once: the state they end in is the state right after that
    read, so [redeemMintQuote] has not been called. *)
Theorem C2_issued_read_resolves_without_redeem
  (env : Env) (st : State) (q : MintQuote) :
  getMintQuote env (reads st) = Resolves (Some q) ->
  state q = "ISSUED" ->
  (forall fuel timeoutMs startTime,
      now st - startTime < timeoutMs ->
      wait_loop (S fuel) env timeoutMs startTime st
      = Some (Ok true, after_read env st))
  /\ (forall timeoutMs,
         0 < timeoutMs ->
         wait_for_payment env timeoutMs st = Some (Ok true, after_read env st))
  /\ check_attempt env st = (Ok tt, emit LogPaid (after_read env st))
  /\ redeems (after_read env st) = redeems st
  /\ redeems (emit LogPaid (after_read env st)) = redeems st.
Proof.
  intros Hread Hq. repeat split.
  - intros fuel timeoutMs startTime Hlt. rewrite wait_loop_unfold.
    destruct (Z.ltb_spec (now st - startTime) timeoutMs); [|lia].
    now rewrite (invoice_attempt_issued env st q).
  - intros timeoutMs Hpos. rewrite wait_for_payment_first by exact Hpos.
    now rewrite (invoice_attempt_issued env st q).
  - now apply (check_attempt_issued env st q).
Qed.

Lemma C2_witness :
  wait_for_payment already_issued_env 300000 (init 0)
  = Some (Ok true, after_read already_issued_env (init 0))
  /\ check_attempt already_issued_env (init 0)
     = (Ok tt, emit LogPaid (after_read already_issued_env (init 0))).
Proof.
  destruct (C2_issued_read_resolves_without_redeem
              already_issued_env (init 0) (quote_in "ISSUED")
              eq_refl eq_refl) as (_ & Hloop & Hcheck & _).
  split; [apply Hloop; reflexivity | exact Hcheck].
Defined.

(** ** A store that does not know the quote *)

Lemma with_read_other (env : Env) (k n : nat) (r : Settled (option MintQuote)) :
  n <> k -> getMintQuote (with_read env k r) n = getMintQuote env n.
Proof.
  intros Hne. simpl. destruct (Nat.eqb_spec n k); [contradiction|reflexivity].
Qed.

Lemma with_read_same (env : Env) (k : nat) (r : Settled (option MintQuote)) :
  getMintQuote (with_read env k r) k = r.
Proof. simpl. now rewrite Nat.eqb_refl. Qed.

(** An attempt whose opening read finds the quote not issued: the engine
    is called, and a failure goes to the handler. *)
Lemma invoice_attempt_not_issued (env : Env) (st : State)
  (lq : option MintQuote) :
  getMintQuote env (reads st) = Resolves lq ->
  isIssued lq = false ->
  invoice_attempt env st =
    match redeemMintQuote env (redeems st) with
    | Resolves _ => (Ok true, after_redeem env (after_read env st))
    | Rejects e => invoice_catch env e (after_redeem env (after_read env st))
    end.
Proof.
  intros Hread Hq. unfold invoice_attempt, invoice_try.
  js_unfold. rewrite Hread. js_red. rewrite Hq.
  change (redeems (after_read env st)) with (redeems st).
  destruct (redeemMintQuote env (redeems st)); reflexivity.
Qed.

Lemma check_attempt_not_issued (env : Env) (st : State)
  (lq : option MintQuote) :
  getMintQuote env (reads st) = Resolves lq ->
  isIssued lq = false ->
  check_attempt env st =
    match redeemMintQuote env (redeems st) with
    | Resolves _ =>
        (Ok tt, emit LogPaid (after_redeem env (after_read env st)))
    | Rejects e => check_catch env e (after_redeem env (after_read env st))
    end.
Proof.
  intros Hread Hq. unfold check_attempt, check_try.
  js_unfold. rewrite Hread. js_red. rewrite Hq.
  change (redeems (after_read env st)) with (redeems st).
  destruct (redeemMintQuote env (redeems st)); reflexivity.
Qed.

(** The handlers only look at reads from the one they start at. *)
Lemma invoice_catch_with_read (env : Env) (k : nat)
  (r : Settled (option MintQuote)) (e : JsError) (st : State) :
  reads st <> k ->
  invoice_catch (with_read env k r) e st = invoice_catch env e st.
Proof.
  intros Hne. js_unfold.
  destruct (invoice_duplicate_signal (message_or_empty e)); js_red;
    [rewrite (with_read_other env k (reads st) r Hne)|]; reflexivity.
Qed.

Lemma check_catch_with_read (env : Env) (k : nat)
  (r : Settled (option MintQuote)) (e : JsError) (st : State) :
  reads st <> k ->
  check_catch (with_read env k r) e st = check_catch env e st.
Proof.
  intros Hne. js_unfold.
  destruct (check_duplicate_signal (message_or_empty e)); js_red;
    [rewrite (with_read_other env k (reads st) r Hne)|]; reflexivity.
Qed.

(** C9: when the read that opens an attempt answers null, the
    Reconciliation Loop and Manual Reconciliation behave exactly as they do
    for a stored quote in any state other than ISSUED (putting such a quote
    in place of the null changes neither the result nor the final state):
    the read does not resolve the quote, and the Settlement Engine is
    called once. *)
Theorem C9_null_read_is_not_issued (env : Env) (st : State) :
  getMintQuote env (reads st) = Resolves None ->
  (forall q : MintQuote,
      state q <> "ISSUED" ->
      invoice_attempt (with_read env (reads st) (Resolves (Some q))) st
      = invoice_attempt env st
      /\ check_attempt (with_read env (reads st) (Resolves (Some q))) st
         = check_attempt env st)
  /\ invoice_attempt env st =
       match redeemMintQuote env (redeems st) with
       | Resolves _ => (Ok true, after_redeem env (after_read env st))
       | Rejects e => invoice_catch env e (after_redeem env (after_read env st))
       end
  /\ check_attempt env st =
       match redeemMintQuote env (redeems st) with
       | Resolves _ =>
           (Ok tt, emit LogPaid (after_redeem env (after_read env st)))
       | Rejects e => check_catch env e (after_redeem env (after_read env st))
       end
  /\ redeems (snd (invoice_attempt env st)) = S (redeems st)
  /\ redeems (snd (check_attempt env st)) = S (redeems st).
Proof.
  intros Hnull.
  pose proof (invoice_attempt_not_issued env st None Hnull eq_refl) as Hi.
  pose proof (check_attempt_not_issued env st None Hnull eq_refl) as Hc.
  split; [|split; [exact Hi|split; [exact Hc|split]]].
  - intros q Hq.
    assert (isIssued (Some q) = false) as Hq'
        by (apply String.eqb_neq, Hq).
    set (env' := with_read env (reads st) (Resolves (Some q))).
    assert (reads (after_redeem env (after_read env st)) <> reads st) as Hne
        by (js_state; lia).
    split.
    + rewrite Hi.
      rewrite (invoice_attempt_not_issued env' st (Some q)
                 (with_read_same env (reads st) _) Hq').
      change (redeemMintQuote env' (redeems st))
        with (redeemMintQuote env (redeems st)).
      change (after_redeem env' (after_read env' st))
        with (after_redeem env (after_read env st)).
      destruct (redeemMintQuote env (redeems st)); [reflexivity|].
      now apply invoice_catch_with_read.
    + rewrite Hc.
      rewrite (check_attempt_not_issued env' st (Some q)
                 (with_read_same env (reads st) _) Hq').
      change (redeemMintQuote env' (redeems st))
        with (redeemMintQuote env (redeems st)).
      change (after_redeem env' (after_read env' st))
        with (after_redeem env (after_read env st)).
      destruct (redeemMintQuote env (redeems st)); [reflexivity|].
      now apply check_catch_with_read.
  - rewrite Hi. destruct (redeemMintQuote env (redeems st)); [reflexivity|].
    now rewrite invoice_catch_redeems.
  - rewrite Hc. destruct (redeemMintQuote env (redeems st)); [reflexivity|].
    now rewrite check_catch_redeems.
Qed.

Lemma C9_witness :
  redeems (snd (invoice_attempt (unknown_quote (error_of "Quote not paid"))
                                (init 0))) = 1%nat
  /\ redeems (snd (check_attempt (unknown_quote (error_of "Quote not paid"))
                                 (init 0))) = 1%nat.
Proof.
  destruct (C9_null_read_is_not_issued
              (unknown_quote (error_of "Quote not paid")) (init 0) eq_refl)
    as (_ & _ & _ & Hi & Hc).
  split; [exact Hi | exact Hc].
Defined.

(** ** Errors without a message *)

Lemma no_message_matches_nothing (e : JsError) :
  message e = None \/ message e = Some "" ->
  message_or_empty e = ""
  /\ invoice_duplicate_signal (message_or_empty e) = false
  /\ invoice_pending_signal (message_or_empty e) = false
  /\ check_duplicate_signal (message_or_empty e) = false
  /\ check_pending_signal (message_or_empty e) = false.
Proof.
  intros H. assert (message_or_empty e = "") as ->
      by (unfold message_or_empty; destruct H as [-> | ->]; reflexivity).
  repeat split.
Qed.

(** The loop stops at the first error its handler rethrows. *)
Lemma wait_loop_rethrow (env : Env) (fuel : nat) (timeoutMs startTime : Z)
  (st0 st : State) (e : JsError) :
  now st0 - startTime < timeoutMs ->
  invoice_try env st0 = (Throw e, st) ->
  invoice_catch env e st = (Throw e, st) ->
  wait_loop (S fuel) env timeoutMs startTime st0 = Some (Throw e, st).
Proof.
  intros Hlt Htry Hcatch. rewrite wait_loop_unfold.
  destruct (Z.ltb_spec (now st0 - startTime) timeoutMs); [|lia].
  unfold invoice_attempt, try_catch. now rewrite Htry, Hcatch.
Qed.

(** C10: an error whose [message] is absent or empty is classified on the
    empty string, which matches no duplicate and no pending pattern: the
    handler of the Reconciliation Loop rethrows it, which ends the loop in
    the round where it was thrown, and the handler of Manual Reconciliation
    exits with code 1.  Classification itself does not fail. *)
Theorem C10_error_without_message_is_fatal (env : Env) (e : JsError)
  (st : State) :
  message e = None \/ message e = Some "" ->
  message_or_empty e = ""
  /\ invoice_catch env e st = (Throw e, st)
  /\ check_catch env e st = (Exit 1, emit (ErrRedeeming (message e)) st)
  /\ (forall fuel timeoutMs startTime st0,
         now st0 - startTime < timeoutMs ->
         invoice_try env st0 = (Throw e, st) ->
         wait_loop (S fuel) env timeoutMs startTime st0 = Some (Throw e, st))
  /\ (forall st0,
         check_try env st0 = (Throw e, st) ->
         check_attempt env st0
         = (Exit 1, emit (ErrRedeeming (message e)) st)).
Proof.
  intros H.
  destruct (no_message_matches_nothing e H) as (Hm & Hd & Hp & Hd' & Hp').
  pose proof (invoice_catch_unmatched env e st Hd Hp) as Hi.
  pose proof (check_catch_unmatched env e st Hd' Hp') as Hc.
  repeat split; try assumption.
  - intros fuel timeoutMs startTime st0 Hlt Htry.
    now apply wait_loop_rethrow.
  - intros st0 Htry. unfold check_attempt, try_catch. now rewrite Htry.
Qed.

Lemma C10_witness :
  invoice_catch (unknown_quote (mkJsError None)) (mkJsError None) (init 0)
  = (Throw (mkJsError None), init 0)
  /\ check_catch (unknown_quote (mkJsError None)) (mkJsError None) (init 0)
     = (Exit 1, emit (ErrRedeeming None) (init 0)).
Proof.
  destruct (C10_error_without_message_is_fatal
              (unknown_quote (mkJsError None)) (mkJsError None) (init 0)
              (or_introl eq_refl)) as (_ & Hi & Hc & _).
  split; [exact Hi | exact Hc].
Defined.

(** ** Errors that match no pattern *)

(** A message outside the specification's case-insensitive patterns is
    outside the patterns the code tests. *)
Lemma outside_spec_patterns (m : string) :
  spec_duplicate_signal m = false ->
  spec_pending_signal m = false ->
  invoice_duplicate_signal m = false /\ invoice_pending_signal m = false.
Proof.
  intros Hd Hp. split.
  - destruct (invoice_duplicate_signal m) eqn:E; [|reflexivity].
    apply invoice_duplicate_within_spec in E. congruence.
  - destruct (invoice_pending_signal m) eqn:E; [|reflexivity].
    apply invoice_pending_within_spec in E. congruence.
Qed.

(** C5: an error whose message matches neither the duplicate patterns nor
    the pending patterns (those the code tests or, which is less, those of
    the specification read without regard to case) is classified fatal, and
    the Reconciliation Loop ends in the very round where it was thrown:
    its result is that same error and its final state is the state at the
    throw, so nothing more was read, redeemed or slept. *)
Theorem C5_unmatched_error_ends_the_loop (env : Env) (e : JsError)
  (st0 st : State) (fuel : nat) (timeoutMs startTime : Z) :
  (invoice_duplicate_signal (message_or_empty e) = false
   /\ invoice_pending_signal (message_or_empty e) = false)
  \/ (spec_duplicate_signal (message_or_empty e) = false
      /\ spec_pending_signal (message_or_empty e) = false) ->
  now st0 - startTime < timeoutMs ->
  invoice_try env st0 = (Throw e, st) ->
  loop_verdict (invoice_catch env e st) = Fatal
  /\ invoice_attempt env st0 = (Throw e, st)
  /\ wait_loop (S fuel) env timeoutMs startTime st0 = Some (Throw e, st)
  /\ (redeems st <= S (redeems st0))%nat.
Proof.
  intros Hm Hlt Htry.
  assert (invoice_duplicate_signal (message_or_empty e) = false
          /\ invoice_pending_signal (message_or_empty e) = false) as [Hd Hp].
  { destruct Hm as [Hm|[Hd Hp]]; [exact Hm|].
    now apply outside_spec_patterns. }
  pose proof (invoice_catch_unmatched env e st Hd Hp) as Hcatch.
  repeat split.
  - now rewrite Hcatch.
  - unfold invoice_attempt, try_catch. now rewrite Htry.
  - now apply wait_loop_rethrow.
  - revert Htry. js_unfold. js_cases; intros Htry; inversion Htry; subst;
      js_state; lia.
Qed.

Lemma C5_witness :
  wait_loop 1 (unknown_quote (error_of "connect ECONNREFUSED")) 300000 0 (init 0)
  = Some (Throw (error_of "connect ECONNREFUSED"),
          after_redeem (unknown_quote (error_of "connect ECONNREFUSED"))
            (after_read (unknown_quote (error_of "connect ECONNREFUSED"))
               (init 0))).
Proof.
  apply (C5_unmatched_error_ends_the_loop
           (unknown_quote (error_of "connect ECONNREFUSED"))
           (error_of "connect ECONNREFUSED") (init 0) _ 0%nat 300000 0).
  - right. split; reflexivity.
  - reflexivity.
  - reflexivity.
Defined.

(** ** Duplicate signals *)

(** The claim C1 as the specification words it fails.  (1) The engine
    answers "Mint quote already issued" while the store still shows the
    quote unpaid: the message matches a duplicate pattern and the second
    read is not ISSUED, yet both paths end fatally instead of pending (the
    loop rethrows, the manual path exits with code 1).  (2) The engine
    answers "Quote Already Issued" or "quote already minted" and the second
    read would show ISSUED: the specification's patterns match, those of
    the code do not, and both paths end fatally instead of with success. *)
Lemma C1_counterexample :
  (spec_duplicate_signal
     (message_or_empty (error_of "Mint quote already issued")) = true
   /\ getMintQuote stale_store 1 = Resolves (Some (quote_in "UNPAID"))
   /\ isIssued (Some (quote_in "UNPAID")) = false
   /\ loop_verdict (invoice_attempt stale_store (init 0)) = Fatal
   /\ manual_verdict (check_attempt stale_store (init 0)) = Fatal
   /\ fst (check_attempt stale_store (init 0)) = Exit 1
   /\ (exists st, wait_for_payment stale_store 300000 (init 0)
                  = Some (Throw (error_of "Mint quote already issued"), st)))
  /\ (spec_duplicate_signal "Quote Already Issued" = true
      /\ reread_issued (minted_by_watcher "Quote Already Issued")
           (after_redeem (minted_by_watcher "Quote Already Issued")
              (after_read (minted_by_watcher "Quote Already Issued") (init 0)))
         = true
      /\ loop_verdict (invoice_attempt
                         (minted_by_watcher "Quote Already Issued") (init 0))
         = Fatal
      /\ manual_verdict (check_attempt
                           (minted_by_watcher "Quote Already Issued") (init 0))
         = Fatal)
  /\ (spec_duplicate_signal "quote already minted" = true
      /\ loop_verdict (invoice_attempt
                         (minted_by_watcher "quote already minted") (init 0))
         = Fatal).
Proof.
  split; [|split].
  - repeat split; try (vm_compute; reflexivity).
    eexists. vm_compute. reflexivity.
  - repeat split; vm_compute; reflexivity.
  - split; vm_compute; reflexivity.
Qed.

(** C1, amended: for an error whose message contains "already issued",
    "already spent" or (in the loop) "Tokens already minted", with the case
    of the letters as written, and a second read of the store that answers:
    the handler resolves as success exactly when that read shows ISSUED;
    when it does not, the outcome is pending if the message also contains
    "PENDING", "not paid" or "UNPAID", and fatal otherwise.  The loop tests
    all three duplicate patterns, the manual path the first two. *)
Theorem C1_duplicate_signal_decided_by_reread (env : Env) (e : JsError)
  (st : State) (lq : option MintQuote) :
  getMintQuote env (reads st) = Resolves lq ->
  (invoice_duplicate_signal (message_or_empty e) = true ->
   (loop_verdict (invoice_catch env e st) = DuplicateSuccess
    <-> isIssued lq = true)
   /\ (isIssued lq = false ->
       loop_verdict (invoice_catch env e st)
       = if check_pending_signal (message_or_empty e)
         then StillPending else Fatal))
  /\ (check_duplicate_signal (message_or_empty e) = true ->
      (manual_verdict (check_catch env e st) = DuplicateSuccess
       <-> isIssued lq = true)
      /\ (isIssued lq = false ->
          manual_verdict (check_catch env e st)
          = if check_pending_signal (message_or_empty e)
            then StillPending else Fatal)).
Proof.
  intros Hread. split; intros Hdup.
  - rewrite (invoice_catch_resolved env e st lq Hread).
    cbv zeta. rewrite Hdup, invoice_pending_is_check_pending.
    destruct (isIssued lq); cbn [andb];
      destruct (check_pending_signal (message_or_empty e));
      unfold loop_verdict; cbn [fst]; repeat split; congruence.
  - rewrite (check_catch_resolved env e st lq Hread).
    cbv zeta. rewrite Hdup.
    destruct (isIssued lq); cbn [andb];
      destruct (check_pending_signal (message_or_empty e));
      unfold manual_verdict; js_state; repeat split; congruence.
Qed.

Lemma C1_witness :
  loop_verdict (invoice_catch (minted_by_watcher "Mint quote already issued")
                  (error_of "Mint quote already issued")
                  (after_read (minted_by_watcher "Mint quote already issued")
                     (init 0)))
  = DuplicateSuccess
  /\ manual_verdict (check_catch (minted_by_watcher "Mint quote already issued")
                       (error_of "Mint quote already issued")
                       (after_read (minted_by_watcher "Mint quote already issued")
                          (init 0)))
     = DuplicateSuccess.
Proof.
  destruct (C1_duplicate_signal_decided_by_reread
              (minted_by_watcher "Mint quote already issued")
              (error_of "Mint quote already issued")
              (after_read (minted_by_watcher "Mint quote already issued")
                 (init 0))
              (Some (quote_in "ISSUED")) eq_refl) as [Hloop Hmanual].
  split.
  - apply (proj1 (Hloop eq_refl)). reflexivity.
  - apply (proj1 (Hmanual eq_refl)). reflexivity.
Defined.

(** ** The two paths compared *)

(** C3, evaluated where the paths part: the background watcher has
    redeemed the quote and the engine refuses with "Tokens already minted".
    The loop's handler tests that pattern, reads the store again and
    resolves as success (exit code 0); the manual handler does not test it
    and ends fatally (exit code 1). *)
Theorem C3_paths_disagree_on_tokens_already_minted :
  loop_verdict (invoice_attempt (minted_by_watcher "Tokens already minted")
                                (init 0)) = DuplicateSuccess
  /\ manual_verdict (check_attempt (minted_by_watcher "Tokens already minted")
                                   (init 0)) = Fatal
  /\ (exists st, main (minted_by_watcher "Tokens already minted") Invoice
                      ["1000"] (init 0) = Some (0, st)
                 /\ hd_error (out st) = Some LogInvoicePaid)
  /\ (exists st, main (minted_by_watcher "Tokens already minted") CheckInvoice
                      ["q1"] (init 0) = Some (1, st)
                 /\ hd_error (out st)
                    = Some (ErrRedeeming (Some "Tokens already minted"))).
Proof.
  repeat split; eexists; split; vm_compute; reflexivity.
Qed.

(** Apart from that pattern the two handlers agree: on a message that
    does not contain "Tokens already minted", or that contains one of the
    other two duplicate patterns, they give the same verdict. *)
Lemma handlers_agree_elsewhere (env : Env) (e : JsError) (st : State) :
  includes (message_or_empty e) "Tokens already minted" = false
  \/ check_duplicate_signal (message_or_empty e) = true ->
  loop_verdict (invoice_catch env e st)
  = manual_verdict (check_catch env e st).
Proof.
  intros H.
  assert (invoice_duplicate_signal (message_or_empty e)
          = check_duplicate_signal (message_or_empty e)) as Hd.
  { destruct H as [H|H].
    - unfold invoice_duplicate_signal, check_duplicate_signal.
      rewrite H. apply orb_false_r.
    - rewrite H. now apply check_duplicate_is_invoice_duplicate. }
  js_unfold. rewrite Hd, invoice_pending_is_check_pending.
  js_cases; reflexivity.
Qed.

(** ** Pending signals *)

(** The claim C4 as the specification words it fails.  (1) The engine
    answers "Quote is pending", which contains "PENDING" when case is
    ignored, and both paths end fatally.  (2) A message with a pending and
    a duplicate pattern, "already issued (was PENDING)": when the second
    read shows ISSUED the verdict is success, not pending, and when the
    store fails on that read the error escapes, which is fatal. *)
Lemma C4_counterexample :
  (spec_pending_signal (message_or_empty (error_of "Quote is pending")) = true
   /\ loop_verdict (invoice_attempt
                      (never_paid "Quote is pending" 2 150 1) (init 0)) = Fatal
   /\ manual_verdict (check_attempt
                        (never_paid "Quote is pending" 2 150 1) (init 0))
      = Fatal
   /\ (exists st, main (never_paid "Quote is pending" 2 150 1) Invoice
                       ["1000"] (init 0) = Some (1, st)))
  /\ (spec_pending_signal "already issued (was PENDING)" = true
      /\ check_pending_signal "already issued (was PENDING)" = true
      /\ loop_verdict (invoice_attempt
                         (minted_by_watcher "already issued (was PENDING)")
                         (init 0)) = DuplicateSuccess
      /\ manual_verdict (check_attempt
                           (minted_by_watcher "already issued (was PENDING)")
                           (init 0)) = DuplicateSuccess
      /\ loop_verdict (invoice_attempt
                         (store_fails_on_reread "already issued (was PENDING)")
                         (init 0)) = Fatal
      /\ manual_verdict (check_attempt
                           (store_fails_on_reread "already issued (was PENDING)")
                           (init 0)) = Fatal).
Proof.
  split.
  - repeat split; try (vm_compute; reflexivity).
    eexists. vm_compute. reflexivity.
  - repeat split; vm_compute; reflexivity.
Qed.

(** C4, amended: for an error whose message contains "PENDING", "not paid"
    or "UNPAID", with the case of the letters as written, neither path
    ends fatally, provided the second read of the store answers when that
    path makes one: the loop makes it when the message also contains one
    of its three duplicate patterns, the manual path when it contains one
    of its two.  The outcome is success when such a read is made and shows
    ISSUED, and pending in every other case; and whenever it is pending the
    loop prints a dot, sleeps [pollInterval] and goes round again, and the
    manual path prints the not-paid-yet line and returns normally. *)
Theorem C4_pending_signal_is_never_fatal (env : Env) (e : JsError)
  (st : State) :
  check_pending_signal (message_or_empty e) = true ->
  ((invoice_duplicate_signal (message_or_empty e) = true ->
    exists lq, getMintQuote env (reads st) = Resolves lq) ->
   invoice_catch env e st
   = (if invoice_duplicate_signal (message_or_empty e) && reread_issued env st
      then (Ok true, after_read env st)
      else (Ok false,
            after_sleep env pollInterval
              (emit StdoutDot
                 (if invoice_duplicate_signal (message_or_empty e)
                  then after_read env st else st))))
   /\ loop_verdict (invoice_catch env e st)
      = (if invoice_duplicate_signal (message_or_empty e)
            && reread_issued env st
         then DuplicateSuccess else StillPending)
   /\ loop_verdict (invoice_catch env e st) <> Fatal)
  /\ ((check_duplicate_signal (message_or_empty e) = true ->
       exists lq, getMintQuote env (reads st) = Resolves lq) ->
      check_catch env e st
      = (if check_duplicate_signal (message_or_empty e) && reread_issued env st
         then (Ok tt, emit LogPaid (after_read env st))
         else (Ok tt,
               emit LogNotPaidYet
                 (if check_duplicate_signal (message_or_empty e)
                  then after_read env st else st)))
      /\ manual_verdict (check_catch env e st)
         = (if check_duplicate_signal (message_or_empty e)
               && reread_issued env st
            then DuplicateSuccess else StillPending)
      /\ manual_verdict (check_catch env e st) <> Fatal).
Proof.
  intros Hp. split; intros Hread.
  - assert (invoice_catch env e st
            = (if invoice_duplicate_signal (message_or_empty e)
                  && reread_issued env st
               then (Ok true, after_read env st)
               else (Ok false,
                     after_sleep env pollInterval
                       (emit StdoutDot
                          (if invoice_duplicate_signal (message_or_empty e)
                           then after_read env st else st))))) as Heq.
    { destruct (invoice_duplicate_signal (message_or_empty e)) eqn:Hd.
      - destruct (Hread eq_refl) as [lq Hlq].
        rewrite (invoice_catch_resolved env e st lq Hlq). cbv zeta.
        unfold reread_issued.
        rewrite Hd, Hlq, invoice_pending_is_check_pending, Hp.
        destruct (isIssued lq); reflexivity.
      - js_unfold. rewrite Hd, invoice_pending_is_check_pending, Hp.
        reflexivity. }
    rewrite Heq. split; [reflexivity|].
    destruct (invoice_duplicate_signal (message_or_empty e)
              && reread_issued env st);
      (split; [reflexivity | intros Hf; discriminate Hf]).
  - assert (check_catch env e st
            = (if check_duplicate_signal (message_or_empty e)
                  && reread_issued env st
               then (Ok tt, emit LogPaid (after_read env st))
               else (Ok tt,
                     emit LogNotPaidYet
                       (if check_duplicate_signal (message_or_empty e)
                        then after_read env st else st)))) as Heq.
    { destruct (check_duplicate_signal (message_or_empty e)) eqn:Hd.
      - destruct (Hread eq_refl) as [lq Hlq].
        rewrite (check_catch_resolved env e st lq Hlq). cbv zeta.
        unfold reread_issued. rewrite Hd, Hlq, Hp.
        destruct (isIssued lq); reflexivity.
      - js_unfold. rewrite Hd, Hp. reflexivity. }
    rewrite Heq. split; [reflexivity|].
    destruct (check_duplicate_signal (message_or_empty e)
              && reread_issued env st);
      (split; [reflexivity | intros Hf; discriminate Hf]).
Qed.

(** At a message with both kinds of pattern and a store that still shows
    the quote unpaid: both paths read the store again and then report
    pending. *)
Lemma C4_witness :
  invoice_catch (never_paid "already issued (was PENDING)" 2 150 1)
                (error_of "already issued (was PENDING)") (init 0)
  = (Ok false,
     after_sleep (never_paid "already issued (was PENDING)" 2 150 1)
       pollInterval
       (emit StdoutDot
          (after_read (never_paid "already issued (was PENDING)" 2 150 1)
                      (init 0))))
  /\ check_catch (never_paid "already issued (was PENDING)" 2 150 1)
                 (error_of "already issued (was PENDING)") (init 0)
     = (Ok tt,
        emit LogNotPaidYet
          (after_read (never_paid "already issued (was PENDING)" 2 150 1)
                      (init 0))).
Proof.
  destruct (C4_pending_signal_is_never_fatal
              (never_paid "already issued (was PENDING)" 2 150 1)
              (error_of "already issued (was PENDING)") (init 0) eq_refl)
    as [Hloop Hmanual].
  split.
  - apply Hloop. intros _. exists (Some (quote_in "UNPAID")). reflexivity.
  - apply Hmanual. intros _. exists (Some (quote_in "UNPAID")). reflexivity.
Defined.

(** ** A quote that is never paid *)

Section NeverPaid.

Variable env : Env.

(** Every read answers, and never with an issued quote. *)
Hypothesis store_not_issued :
  forall k, exists lq, getMintQuote env k = Resolves lq /\ isIssued lq = false.

(** Every redemption fails with a message the code takes for pending. *)
Hypothesis engine_pending :
  forall k, exists e, redeemMintQuote env k = Rejects e
                      /\ check_pending_signal (message_or_empty e) = true.

(** One round: it calls the engine once, sleeps once and goes round
    again; it takes the poll interval and the time of its calls. *)
Lemma never_paid_round (st : State) :
  exists st',
    invoice_attempt env st = (Ok false, st')
    /\ redeems st' = S (redeems st)
    /\ sleeps st' = S (sleeps st)
    /\ now st + pollInterval + Z.of_N (redeemMintQuote_ms env (redeems st))
       <= now st'
    /\ now st' <= now st + pollInterval
                  + Z.of_N (getMintQuote_ms env (reads st))
                  + Z.of_N (getMintQuote_ms env (S (reads st)))
                  + Z.of_N (redeemMintQuote_ms env (redeems st))
                  + Z.of_N (setTimeout_late env (sleeps st)).
Proof.
  destruct (store_not_issued (reads st)) as (lq & Hread & Hlq).
  destruct (engine_pending (redeems st)) as (e & Hred & Hp).
  destruct (store_not_issued (S (reads st))) as (lq2 & Hread2 & Hlq2).
  rewrite (invoice_attempt_not_issued env st lq Hread Hlq), Hred.
  rewrite (invoice_catch_resolved env e
             (after_redeem env (after_read env st)) lq2 Hread2).
  cbv zeta.
  rewrite Hlq2, andb_false_r, invoice_pending_is_check_pending, Hp.
  eexists. split; [reflexivity|].
  destruct (invoice_duplicate_signal (message_or_empty e));
    js_state; repeat split; lia.
Qed.

(** With a timeout of 12000 ms the loop gives up after one, two or
    three rounds, depending on how long the calls take. *)
Lemma never_paid_times_out (st : State) :
  exists st',
    wait_for_payment env 12000 st = Some (Ok false, st')
    /\ (redeems st < redeems st' <= redeems st + 3)%nat
    /\ (sleeps st' - sleeps st = redeems st' - redeems st)%nat
    /\ ((forall i j k,
            2 * Z.of_N (getMintQuote_ms env i)
            + Z.of_N (redeemMintQuote_ms env j)
            + Z.of_N (setTimeout_late env k) < 1000) ->
        redeems st' = (redeems st + 3)%nat)
    /\ ((forall j, 1000 <= Z.of_N (redeemMintQuote_ms env j)) ->
        (forall i j k,
            2 * Z.of_N (getMintQuote_ms env i)
            + Z.of_N (redeemMintQuote_ms env j)
            + Z.of_N (setTimeout_late env k) < 7000) ->
        redeems st' = (redeems st + 2)%nat).
Proof.
  unfold wait_for_payment.
  change (enough_fuel 12000) with 4%nat.
  destruct (never_paid_round st) as (st1 & H1 & R1 & S1 & L1 & U1).
  destruct (never_paid_round st1) as (st2 & H2 & R2 & S2 & L2 & U2).
  destruct (never_paid_round st2) as (st3 & H3 & R3 & S3 & L3 & U3).
  unfold pollInterval in *.
  rewrite wait_loop_unfold, H1.
  destruct (Z.ltb_spec (now st - now st) 12000) as [_|]; [|lia].
  rewrite wait_loop_unfold.
  destruct (Z.ltb_spec (now st1 - now st) 12000) as [C1|C1].
  - rewrite H2, wait_loop_unfold.
    destruct (Z.ltb_spec (now st2 - now st) 12000) as [C2|C2].
    + rewrite H3, wait_loop_unfold.
      destruct (Z.ltb_spec (now st3 - now st) 12000) as [C3|C3]; [lia|].
      exists st3. split; [reflexivity|].
      repeat split; try lia.
      intros Hslow _. pose proof (Hslow (redeems st)).
      pose proof (Hslow (redeems st1)). lia.
    + exists st2. split; [reflexivity|].
      repeat split; try lia.
      intros Hfast.
      pose proof (Hfast (reads st) (redeems st) (sleeps st)).
      pose proof (Hfast (S (reads st)) (redeems st) (sleeps st)).
      pose proof (Hfast (reads st1) (redeems st1) (sleeps st1)).
      pose proof (Hfast (S (reads st1)) (redeems st1) (sleeps st1)).
      lia.
  - exists st1. split; [reflexivity|].
    repeat split; try lia.
    + intros Hfast.
      pose proof (Hfast (reads st) (redeems st) (sleeps st)).
      pose proof (Hfast (S (reads st)) (redeems st) (sleeps st)).
      lia.
    + intros _ Hcap.
      pose proof (Hcap (reads st) (redeems st) (sleeps st)).
      pose proof (Hcap (S (reads st)) (redeems st) (sleeps st)).
      lia.
Qed.

End NeverPaid.

(** The claim C6 as the specification words it fails: with the poll
    interval of 5000 ms and a timeout of 12000 ms, against a store that
    always shows UNPAID (5 ms a read) and an engine that always answers
    "Quote not paid" (200 ms a call), the loop starts rounds at 0, 5206 and
    10412 ms: three poll attempts, not two, before it times out. *)
Lemma C6_counterexample :
  pollInterval = 5000
  /\ (forall k, getMintQuote (never_paid "Quote not paid" 5 200 1) k
                = Resolves (Some (quote_in "UNPAID")))
  /\ (forall k, redeemMintQuote (never_paid "Quote not paid" 5 200 1) k
                = Rejects (error_of "Quote not paid"))
  /\ spec_pending_signal "Quote not paid" = true
  /\ (exists st,
         wait_for_payment (never_paid "Quote not paid" 5 200 1) 12000 (init 0)
         = Some (Ok false, st)
         /\ redeems st = 3%nat /\ reads st = 3%nat /\ sleeps st = 3%nat
         /\ now st = 15618).
Proof.
  split; [reflexivity|]. split; [intros k; reflexivity|].
  split; [intros k; reflexivity|]. split; [vm_compute; reflexivity|].
  exists (mkState 15618 3 3 3 [StdoutDot; StdoutDot; StdoutDot] false).
  vm_compute. repeat split.
Qed.

(** C6, amended: with the poll interval of 5000 ms and a timeout of
    12000 ms, a quote that is never seen issued and whose every redemption
    fails with a pending message makes the Reconciliation Loop give up
    after one, two or three poll attempts, never more: three when the calls
    and the timer's lateness of a round add up to less than 1000 ms, two
    when every redemption takes at least 1000 ms and a round's calls less
    than 7000 ms.  The loop then ends with [paid] false, and the command
    prints the timeout hint and exits with code 0. *)
Theorem C6_never_paid_times_out_within_three_attempts (env : Env)
  (st : State) :
  (forall k, exists lq,
        getMintQuote env k = Resolves lq /\ isIssued lq = false) ->
  (forall k, exists e,
        redeemMintQuote env k = Rejects e
        /\ check_pending_signal (message_or_empty e) = true) ->
  exists st',
    wait_for_payment env 12000 st = Some (Ok false, st')
    /\ (redeems st < redeems st' <= redeems st + 3)%nat
    /\ ((forall i j k,
            2 * Z.of_N (getMintQuote_ms env i)
            + Z.of_N (redeemMintQuote_ms env j)
            + Z.of_N (setTimeout_late env k) < 1000) ->
        redeems st' = (redeems st + 3)%nat)
    /\ ((forall j, 1000 <= Z.of_N (redeemMintQuote_ms env j)) ->
        (forall i j k,
            2 * Z.of_N (getMintQuote_ms env i)
            + Z.of_N (redeemMintQuote_ms env j)
            + Z.of_N (setTimeout_late env k) < 7000) ->
        redeems st' = (redeems st + 2)%nat)
    /\ (forall args s url q,
           invoice_setup env args s = (Ok (12000, url, q), st) ->
           main env Invoice args s
           = Some (0, cleanup (emit (LogPaymentTimeout (quote q) url) st'))).
Proof.
  intros Hstore Hengine.
  destruct (never_paid_times_out env Hstore Hengine st)
    as (st' & Hwait & Hn & _ & Hfast & Hslow).
  exists st'. repeat split; try assumption; try lia.
  intros args s url q Hsetup.
  unfold main, case_invoice. rewrite Hsetup, Hwait. reflexivity.
Qed.

Lemma C6_witness :
  exists st',
    wait_for_payment (never_paid "Quote not paid" 5 200 1) 12000 (init 0)
    = Some (Ok false, st')
    /\ redeems st' = 3%nat.
Proof.
  destruct (C6_never_paid_times_out_within_three_attempts
              (never_paid "Quote not paid" 5 200 1) (init 0))
    as (st' & Hwait & _ & Hfast & _).
  - intros k. exists (Some (quote_in "UNPAID")). split; reflexivity.
  - intros k. exists (error_of "Quote not paid"). split; reflexivity.
  - exists st'. split; [exact Hwait|].
    apply Hfast. intros i j k. reflexivity.
Defined.

(** ** Manual reconciliation, repeated *)

Lemma check_repeatedly_unfold (n : nat) (env : Env) (st : State) :
  check_repeatedly (S n) env st =
    (fst (check_attempt env st)
       :: fst (check_repeatedly n env (snd (check_attempt env st))),
     snd (check_repeatedly n env (snd (check_attempt env st)))).
Proof.
  simpl. destruct (check_attempt env st) as [r st1]. simpl.
  destruct (check_repeatedly n env st1). reflexivity.
Qed.

(** C7: against a store that shows the quote ISSUED, Manual Reconciliation
    invoked any number of times in a row returns normally every time with
    the paid line printed, never throws, never exits with an error and
    never calls the engine; the [check-invoice] command as a whole exits
    with code 0 from every state. *)
Theorem C7_manual_reconciliation_is_idempotent (env : Env) :
  (forall k, exists q,
        getMintQuote env k = Resolves (Some q) /\ state q = "ISSUED") ->
  forall (n : nat) (st : State),
    fst (check_repeatedly n env st) = repeat (Ok tt) n
    /\ redeems (snd (check_repeatedly n env st)) = redeems st
    /\ out (snd (check_repeatedly n env st)) = (repeat LogPaid n ++ out st)%list
    /\ manual_verdict (check_attempt env st) = DuplicateSuccess
    /\ (forall args url,
           truthy (nth_error args 0) = true ->
           mintUrl_or_first env (nth_error args 1) st = (Ok (Some url), st) ->
           url <> "" ->
           main env CheckInvoice args st
           = Some (0, cleanup (emit LogPaid (after_read env st)))).
Proof.
  intros Hstore.
  assert (forall st, check_attempt env st
                     = (Ok tt, emit LogPaid (after_read env st))) as Hone.
  { intros st. destruct (Hstore (reads st)) as (q & Hread & Hq).
    exact (check_attempt_issued env st q Hread Hq). }
  assert (forall n st,
             fst (check_repeatedly n env st) = repeat (Ok tt) n
             /\ redeems (snd (check_repeatedly n env st)) = redeems st
             /\ out (snd (check_repeatedly n env st))
                = (repeat LogPaid n ++ out st)%list) as Hrep.
  { induction n as [|n IH]; intros st; [repeat split|].
    rewrite check_repeatedly_unfold, Hone. cbn [fst snd].
    destruct (IH (emit LogPaid (after_read env st))) as (Hr & Hc & Ho).
    rewrite Hr, Hc, Ho. repeat split.
    change (repeat LogPaid (S n)) with (LogPaid :: repeat LogPaid n).
    rewrite repeat_cons, <- app_assoc. reflexivity. }
  intros n st. destruct (Hrep n st) as (Hr & Hc & Ho).
  repeat split; try assumption.
  - now rewrite Hone.
  - intros args url Hq Hmint Hurl.
    unfold main, case_check_invoice, bind. rewrite Hq. cbn [negb].
    rewrite Hmint. unfold truthy.
    destruct (String.eqb_spec url ""); [contradiction|]. cbn [negb].
    now rewrite Hone.
Qed.

Lemma C7_witness :
  fst (check_repeatedly 3 already_issued_env (init 0))
  = [Ok tt; Ok tt; Ok tt]
  /\ redeems (snd (check_repeatedly 3 already_issued_env (init 0))) = 0%nat
  /\ main already_issued_env CheckInvoice ["q1"] (init 0)
     = Some (0, cleanup (emit LogPaid (after_read already_issued_env (init 0)))).
Proof.
  destruct (C7_manual_reconciliation_is_idempotent already_issued_env
              (fun k => ex_intro _ (quote_in "ISSUED") (conj eq_refl eq_refl))
              3%nat (init 0)) as (Hr & Hc & _ & _ & Hmain).
  split; [exact Hr|]. split; [exact Hc|].
  apply (Hmain ["q1"] "https://mint.example").
  - reflexivity.
  - reflexivity.
  - discriminate.
Defined.

(** ** Exit codes *)




(** * Further properties of the wait loop and of the manual check *)

(** ** What one attempt costs *)

Lemma invoice_attempt_counters (env : Env) (st : State) :
  (redeems st <= redeems (snd (invoice_attempt env st)) <= S (redeems st))%nat
  /\ (sleeps st <= sleeps (snd (invoice_attempt env st)) <= S (sleeps st))%nat
  /\ (reads st < reads (snd (invoice_attempt env st)) <= reads st + 2)%nat
  /\ now st <= now (snd (invoice_attempt env st)).
Proof.
  js_unfold. js_cases; js_state; lia.
Qed.

Lemma invoice_attempt_never_exits (env : Env) (st st' : State) (c : Z) :
  invoice_attempt env st <> (Exit c, st').
Proof.
  js_unfold. js_cases; discriminate.
Qed.

Lemma wait_loop_never_exits (env : Env) (timeoutMs startTime : Z) :
  forall (fuel : nat) (st st' : State) (c : Z),
    wait_loop fuel env timeoutMs startTime st <> Some (Exit c, st').
Proof.
  induction fuel as [|fuel IH]; intros st st' c; [discriminate|].
  rewrite wait_loop_unfold.
  destruct (now st - startTime <? timeoutMs); [|discriminate].
  destruct (invoice_attempt env st) as [[[|]|e|c'] st1] eqn:Ha;
    try discriminate.
  - apply IH.
  - intros H. inversion H; subst.
    exact (invoice_attempt_never_exits env st st' c Ha).
Qed.

(** ** How long the loop can go on *)

(** The loop starts [n] rounds, each at least [pollInterval] after the
    one before and the first one only if time is left. *)
Lemma wait_loop_bounds (env : Env) (timeoutMs startTime : Z) :
  forall (fuel : nat) (st : State) (r : Res bool) (st' : State),
    wait_loop fuel env timeoutMs startTime st = Some (r, st') ->
    exists n : nat,
      (timeoutMs <= now st - startTime -> n = 0%nat)
      /\ pollInterval * Z.of_nat n
         < Z.max (timeoutMs - (now st - startTime)) 0 + pollInterval
      /\ (redeems st <= redeems st' <= redeems st + n)%nat
      /\ (sleeps st <= sleeps st' <= sleeps st + n)%nat
      /\ (reads st <= reads st' <= reads st + 2 * n)%nat
      /\ now st <= now st'.
Proof.
  induction fuel as [|fuel IH]; intros st r st' H; [discriminate|].
  rewrite wait_loop_unfold in H.
  destruct (Z.ltb_spec (now st - startTime) timeoutMs) as [Hlt|Hge].
  - pose proof (invoice_attempt_counters env st) as (Hr & Hs & Hd & Hn).
    destruct (invoice_attempt env st) as [[[|]|e|c] st1] eqn:Ha;
      cbn [snd] in *;
      try (inversion H; subst; exists 1%nat; unfold pollInterval;
           split; [intros; lia | lia]).
    apply invoice_attempt_clock in Ha.
    apply IH in H. destruct H as (n & Hend & Hn' & H).
    exists (S n). split; [intros; lia|].
    destruct (Z.le_gt_cases timeoutMs (now st1 - startTime)) as [Hover|Hin].
    + rewrite (Hend Hover) in *. unfold pollInterval in *. lia.
    + unfold pollInterval in *. lia.
  - inversion H; subst. exists 0%nat. unfold pollInterval.
    split; [reflexivity | lia].
Qed.

(** For a finite timeout the loop ends, and never by [process.exit]; with
    T the timeout (0 if negative) it makes at most ceil(T / 5000)
    redemption attempts, sleeps at most that often and reads the store at
    most twice as often. *)
Lemma wait_for_payment_rounds_bounded (env : Env) (timeoutMs : Z)
  (st : State) :
  exists r st',
    wait_for_payment env timeoutMs st = Some (r, st')
    /\ (forall c, r <> Exit c)
    /\ Z.of_nat (redeems st' - redeems st)
       <= (Z.max timeoutMs 0 + pollInterval - 1) / pollInterval
    /\ Z.of_nat (sleeps st' - sleeps st)
       <= (Z.max timeoutMs 0 + pollInterval - 1) / pollInterval
    /\ Z.of_nat (reads st' - reads st)
       <= 2 * ((Z.max timeoutMs 0 + pollInterval - 1) / pollInterval).
Proof.
  destruct (wait_for_payment_returns env timeoutMs st) as [[r st'] H].
  exists r, st'. split; [exact H|]. unfold wait_for_payment in *.
  split.
  - intros c ->. exact (wait_loop_never_exits _ _ _ _ _ _ _ H).
  - apply wait_loop_bounds in H.
    destruct H as (n & _ & Hn & Hr & Hs & Hd & _).
    replace (timeoutMs - (now st - now st)) with timeoutMs in * by lia.
    set (m := Z.max timeoutMs 0) in *.
    assert (Z.of_nat n <= (m + pollInterval - 1) / pollInterval) as Hq
        by (apply Z.div_le_lower_bound; unfold pollInterval in *; lia).
    repeat split; lia.
Qed.

(** The general loop at a finite timeout is the loop of [invoice]. *)
Lemma wait_loop_any_finite (env : Env) (timeoutMs startTime : Z) :
  forall (fuel : nat) (st : State),
    wait_loop_any fuel env (FiniteMs timeoutMs) startTime st
    = wait_loop fuel env timeoutMs startTime st.
Proof.
  induction fuel as [|fuel IH]; intros st; [reflexivity|].
  rewrite wait_loop_unfold. cbn [wait_loop_any before_timeout].
  destruct (now st - startTime <? timeoutMs); [|reflexivity].
  destruct (invoice_attempt env st) as [[[|]|e|c] st']; try reflexivity.
  apply IH.
Qed.

(** At a timeout of Infinity the test of the loop never fails: against a
    quote that is never paid no number of rounds is enough. *)
Lemma wait_loop_any_forever (env : Env) (startTime : Z) :
  (forall k, exists lq,
        getMintQuote env k = Resolves lq /\ isIssued lq = false) ->
  (forall k, exists e,
        redeemMintQuote env k = Rejects e
        /\ check_pending_signal (message_or_empty e) = true) ->
  forall (fuel : nat) (st : State),
    wait_loop_any fuel env PlusInfinity startTime st = None.
Proof.
  intros Hstore Hengine.
  induction fuel as [|fuel IH]; intros st; [reflexivity|].
  cbn [wait_loop_any before_timeout].
  destruct (never_paid_round env Hstore Hengine st) as (st' & -> & _).
  apply IH.
Qed.

(** X1: how long the wait loop goes on, by the timeout it is given.  With
    a finite timeout of T ms, whatever the store and the engine answer and
    however long they take, the loop ends, and never by [process.exit]; it
    makes at most ceil(T / 5000) redemption attempts (none if T is not
    positive), sleeps at most that often and reads the store at most twice
    as often, each timer waiting at least the 5000 ms asked for.  With a
    timeout of -Infinity it ends at once.  With a timeout of +Infinity,
    which is what a timeout argument of some 309 digits parses to, and a
    quote that is never paid, it never ends. *)
Theorem wait_loop_ends_exactly_under_a_finite_timeout (env : Env)
  (st : State) :
  (forall timeoutMs : Z,
      exists r st',
        (forall fuel, (enough_fuel timeoutMs <= fuel)%nat ->
                      wait_loop_any fuel env (FiniteMs timeoutMs) (now st) st
                      = Some (r, st'))
        /\ (forall c, r <> Exit c)
        /\ Z.of_nat (redeems st' - redeems st)
           <= (Z.max timeoutMs 0 + pollInterval - 1) / pollInterval
        /\ Z.of_nat (sleeps st' - sleeps st)
           <= (Z.max timeoutMs 0 + pollInterval - 1) / pollInterval
        /\ Z.of_nat (reads st' - reads st)
           <= 2 * ((Z.max timeoutMs 0 + pollInterval - 1) / pollInterval))
  /\ (forall fuel,
         wait_loop_any (S fuel) env MinusInfinity (now st) st
         = Some (Ok false, st))
  /\ ((forall k, exists lq,
          getMintQuote env k = Resolves lq /\ isIssued lq = false) ->
      (forall k, exists e,
          redeemMintQuote env k = Rejects e
          /\ check_pending_signal (message_or_empty e) = true) ->
      forall fuel, wait_loop_any fuel env PlusInfinity (now st) st = None).
Proof.
  split; [|split].
  - intros timeoutMs.
    destruct (wait_for_payment_rounds_bounded env timeoutMs st)
      as (r & st' & Hw & Hrest).
    exists r, st'. split; [|exact Hrest].
    intros fuel Hfuel. rewrite wait_loop_any_finite.
    exact (wait_loop_more_fuel env timeoutMs (now st) _ st (r, st') Hw
             fuel Hfuel).
  - intros fuel. reflexivity.
  - intros Hstore Hengine fuel.
    now apply wait_loop_any_forever.
Qed.

Lemma wait_loop_ends_exactly_under_a_finite_timeout_witness :
  wait_loop_any 1000 (never_paid "Quote not paid" 5 200 1) PlusInfinity
                (now (init 0)) (init 0) = None.
Proof.
  apply (proj2 (proj2 (wait_loop_ends_exactly_under_a_finite_timeout
                         (never_paid "Quote not paid" 5 200 1) (init 0)))).
  - intros k. exists (Some (quote_in "UNPAID")). split; reflexivity.
  - intros k. exists (error_of "Quote not paid"). split; reflexivity.
Defined.

Lemma wait_loop_unpaid_is_late (env : Env) (timeoutMs startTime : Z) :
  forall (fuel : nat) (st st' : State),
    wait_loop fuel env timeoutMs startTime st = Some (Ok false, st') ->
    timeoutMs <= now st' - startTime.
Proof.
  induction fuel as [|fuel IH]; intros st st' H; [discriminate|].
  rewrite wait_loop_unfold in H.
  destruct (Z.ltb_spec (now st - startTime) timeoutMs) as [Hlt|Hge].
  - destruct (invoice_attempt env st) as [[[|]|e|c] st1];
      try discriminate. exact (IH _ _ H).
  - inversion H; subst. exact Hge.
Qed.

(** X2: the loop gives up only when the time is up.  When it ends with
    the quote unpaid, at least [timeoutMs] milliseconds have passed since
    it started; before that it ends only by success or by an error. *)
Theorem wait_for_payment_gives_up_only_after_timeout (env : Env)
  (timeoutMs : Z) (st st' : State) :
  wait_for_payment env timeoutMs st = Some (Ok false, st') ->
  timeoutMs <= now st' - now st.
Proof. apply wait_loop_unpaid_is_late. Qed.

Lemma wait_for_payment_gives_up_only_after_timeout_witness :
  12000 <= 15618 - now (init 0).
Proof.
  apply (wait_for_payment_gives_up_only_after_timeout
           (never_paid "Quote not paid" 5 200 1) 12000 (init 0)
           (mkState 15618 3 3 3 [StdoutDot; StdoutDot; StdoutDot] false)).
  vm_compute. reflexivity.
Defined.

(** ** When the quote is reported paid *)

Lemma seen_issued_wider (env : Env) (a b a' b' : nat) :
  (a' <= a)%nat -> (b <= b')%nat ->
  seen_issued env a b -> seen_issued env a' b'.
Proof.
  intros Ha Hb (k & lq & Hk & H). exists k, lq. split; [lia|exact H].
Qed.

Lemma redeemed_wider (env : Env) (a b a' b' : nat) :
  (a' <= a)%nat -> (b <= b')%nat ->
  redeemed env a b -> redeemed env a' b'.
Proof.
  intros Ha Hb (k & u & Hk & H). exists k, u. split; [lia|exact H].
Qed.

Lemma invoice_attempt_paid (env : Env) (st st' : State) :
  invoice_attempt env st = (Ok true, st') ->
  seen_issued env (reads st) (reads st')
  \/ redeemed env (redeems st) (redeems st').
Proof.
  unfold seen_issued, redeemed. js_unfold.
  destruct (getMintQuote env (reads st)) as [lq|e0] eqn:Hread; js_red.
  - destruct (isIssued lq) eqn:Hlq; js_red.
    + intros H. inversion H; subst. left. exists (reads st), lq.
      js_state. repeat split; [lia | lia | assumption | assumption].
    + change (redeems (after_read env st)) with (redeems st).
      destruct (redeemMintQuote env (redeems st)) as [u|e] eqn:Hred; js_red.
      * intros H. inversion H; subst. right. exists (redeems st), u.
        js_state. repeat split; [lia | lia | assumption].
      * destruct (invoice_duplicate_signal (message_or_empty e)); js_red.
        -- change (reads (after_redeem env (after_read env st)))
             with (S (reads st)).
           destruct (getMintQuote env (S (reads st))) as [lq2|e2] eqn:Hread2;
             js_red; [|discriminate].
           destruct (isIssued lq2) eqn:Hlq2; js_red.
           ++ intros H. inversion H; subst. left. exists (S (reads st)), lq2.
              js_state. repeat split; [lia | lia | assumption | assumption].
           ++ destruct (invoice_pending_signal (message_or_empty e));
                discriminate.
        -- destruct (invoice_pending_signal (message_or_empty e));
             discriminate.
  - destruct (invoice_duplicate_signal (message_or_empty e0)); js_red.
    + change (reads (after_read env st)) with (S (reads st)).
      destruct (getMintQuote env (S (reads st))) as [lq2|e2] eqn:Hread2;
        js_red; [|discriminate].
      destruct (isIssued lq2) eqn:Hlq2; js_red.
      * intros H. inversion H; subst. left. exists (S (reads st)), lq2.
        js_state. repeat split; [lia | lia | assumption | assumption].
      * destruct (invoice_pending_signal (message_or_empty e0));
          discriminate.
    + destruct (invoice_pending_signal (message_or_empty e0)); discriminate.
Qed.

Lemma wait_loop_paid (env : Env) (timeoutMs startTime : Z) :
  forall (fuel : nat) (st st' : State),
    wait_loop fuel env timeoutMs startTime st = Some (Ok true, st') ->
    seen_issued env (reads st) (reads st')
    \/ redeemed env (redeems st) (redeems st').
Proof.
  induction fuel as [|fuel IH]; intros st st' H; [discriminate|].
  rewrite wait_loop_unfold in H.
  destruct (now st - startTime <? timeoutMs); [|discriminate].
  pose proof (invoice_attempt_counters env st) as (Hr & _ & Hd & _).
  destruct (invoice_attempt env st) as [[[|]|e|c] st1] eqn:Ha;
    try discriminate; cbn [snd] in *.
  - inversion H; subst. now apply invoice_attempt_paid.
  - destruct (IH _ _ H) as [Hi|Hi].
    + left. apply (seen_issued_wider env (reads st1) (reads st')); [lia|lia|].
      exact Hi.
    + right. apply (redeemed_wider env (redeems st1) (redeems st'));
        [lia|lia|]. exact Hi.
Qed.

(** X3: the [invoice] command reports a quote paid only on evidence.
    When the wait loop ends with [paid] set, one of the store reads it made
    answered a quote in state ISSUED, or one of the redemptions it
    attempted succeeded. *)
Theorem wait_for_payment_paid_on_evidence (env : Env) (timeoutMs : Z)
  (st st' : State) :
  wait_for_payment env timeoutMs st = Some (Ok true, st') ->
  seen_issued env (reads st) (reads st')
  \/ redeemed env (redeems st) (redeems st').
Proof. apply wait_loop_paid. Qed.

Lemma wait_for_payment_paid_on_evidence_witness :
  seen_issued (minted_by_watcher "Mint quote already issued") 0 2
  \/ redeemed (minted_by_watcher "Mint quote already issued") 0 1.
Proof.
  apply (wait_for_payment_paid_on_evidence
           (minted_by_watcher "Mint quote already issued") 300000 (init 0)
           (mkState 154 2 1 0 [] false)).
  vm_compute. reflexivity.
Defined.

(** X4: the same for the manual check.  Whenever it returns normally it
    has printed exactly one line: the paid line, and then a store read it
    made showed ISSUED or its redemption succeeded, or else the
    not-paid-yet line. *)
Theorem check_attempt_paid_on_evidence (env : Env) (st st' : State) :
  check_attempt env st = (Ok tt, st') ->
  (out st' = LogPaid :: out st
   /\ (seen_issued env (reads st) (reads st')
       \/ redeemed env (redeems st) (redeems st')))
  \/ out st' = LogNotPaidYet :: out st.
Proof.
  unfold seen_issued, redeemed. js_unfold.
  js_cases; intros H; inversion H; subst;
    first
      [ right; reflexivity
      | left; split; [reflexivity|];
        first
          [ left; eexists; eexists; split; [|split; eassumption];
            js_state; lia
          | right; eexists; eexists; split; [|eassumption];
            js_state; lia ] ].
Qed.

Lemma check_attempt_paid_on_evidence_witness :
  (out (emit LogPaid (after_read already_issued_env (init 0)))
   = LogPaid :: out (init 0)
   /\ (seen_issued already_issued_env (reads (init 0))
         (reads (emit LogPaid (after_read already_issued_env (init 0))))
       \/ redeemed already_issued_env (redeems (init 0))
            (redeems (emit LogPaid (after_read already_issued_env (init 0))))))
  \/ out (emit LogPaid (after_read already_issued_env (init 0)))
     = LogNotPaidYet :: out (init 0).
Proof.
  apply (check_attempt_paid_on_evidence already_issued_env (init 0)).
  reflexivity.
Defined.

(** ** The setup of [invoice] *)

Lemma parseInt_or_nonzero (env : Env) (arg : option string) (dflt : Z) :
  dflt <> 0 -> parseInt_or env arg dflt <> 0.
Proof.
  intros Hd. unfold parseInt_or. destruct arg as [s|]; [|exact Hd].
  destruct (parseInt env s) as [z|]; [|exact Hd].
  destruct (Z.eqb_spec z 0); assumption.
Qed.

Lemma mintUrl_or_first_state (env : Env) (arg : option string) (st st' : State)
  (r : Res (option string)) :
  mintUrl_or_first env arg st = (r, st') ->
  st' = st
  /\ (forall c, r <> Exit c)
  /\ (forall e, r = Throw e ->
                truthy arg = false /\ getAllMints env = Rejects e)
  /\ (truthy arg = true -> r = Ok arg).
Proof.
  unfold mintUrl_or_first, bind, await, ret.
  destruct (truthy arg).
  - intros H. inversion H; subst.
    repeat split; intros; try discriminate; congruence.
  - destruct (getAllMints env) as [ms|e0]; intros H; inversion H; subst;
      repeat split; intros; try discriminate; congruence.
Qed.

(** The outcomes of the setup of [invoice], case by case. *)
Lemma invoice_setup_cases (env : Env) (args : list string)
  (st st1 : State) (r : Res (Z * string * MintQuote)) :
  invoice_setup env args st = (r, st1) ->
  reads st1 = reads st /\ redeems st1 = redeems st
  /\ sleeps st1 = sleeps st /\ now st1 = now st
  /\ match r with
     | Ok (timeoutMs, url, q) =>
         timeoutMs <> 0 /\ url <> ""
         /\ createMintQuote env = Resolves q
         /\ timeoutMs = parseInt_or env (nth_error args 2) 300000
         /\ (nth_error args 2 = None -> timeoutMs = 300000)
         /\ exists amount,
             amount <> 0
             /\ (nth_error args 0 = None -> amount = 1000)
             /\ st1 = emit (LogInvoice q amount url timeoutMs) st
     | Throw e =>
         st1 = st
         /\ (getAllMints env = Rejects e \/ createMintQuote env = Rejects e)
     | Exit c => c = 1 /\ st1 = emit ErrNoMint st
     end.
Proof.
  unfold invoice_setup, bind.
  destruct (mintUrl_or_first env (nth_error args 1) st) as [[mint|e|c] s1] eqn:Hm;
    apply mintUrl_or_first_state in Hm; destruct Hm as (-> & Hx & Ht & _).
  - destruct mint as [url|].
    + unfold truthy. destruct (String.eqb_spec url "") as [->|Hurl]; cbn [negb].
      * intros H. inversion H; subst. do 4 (split; [reflexivity|]).
        split; reflexivity.
      * unfold await, console, ret.
        destruct (createMintQuote env) as [q|e] eqn:Hq;
          intros H; inversion H; subst; do 4 (split; [reflexivity|]).
        -- split; [apply parseInt_or_nonzero; discriminate|].
           split; [exact Hurl|]. split; [reflexivity|].
           split; [reflexivity|].
           split; [intros Hn; simpl in Hn; rewrite Hn; reflexivity|].
           exists (parseInt_or env (nth_error args 0) 1000).
           split; [apply parseInt_or_nonzero; discriminate|].
           split; [intros Hn; rewrite Hn; reflexivity | reflexivity].
        -- split; [reflexivity|]. right. reflexivity.
    + intros H. inversion H; subst. do 4 (split; [reflexivity|]).
      split; reflexivity.
  - intros H. inversion H; subst. do 4 (split; [reflexivity|]).
    split; [reflexivity|]. left. exact (proj2 (Ht e eq_refl)).
  - exfalso. exact (Hx c eq_refl).
Qed.



(** X6: a timeout that is not positive.  The loop body never runs: the
    quote has been created and its invoice printed, but the store is not
    read and no redemption is attempted; the command prints the timeout
    hint and exits with code 0. *)
Theorem invoice_with_nonpositive_timeout (env : Env) (args : list string)
  (st st1 : State) (timeoutMs : Z) (url : string) (q : MintQuote) :
  invoice_setup env args st = (Ok (timeoutMs, url, q), st1) ->
  timeoutMs <= 0 ->
  wait_for_payment env timeoutMs st1 = Some (Ok false, st1)
  /\ main env Invoice args st
     = Some (0, cleanup (emit (LogPaymentTimeout (quote q) url) st1))
  /\ reads st1 = reads st /\ redeems st1 = redeems st.
Proof.
  intros Hsetup Hneg.
  assert (wait_for_payment env timeoutMs st1 = Some (Ok false, st1)) as Hw.
  { unfold wait_for_payment, enough_fuel. rewrite wait_loop_unfold.
    destruct (Z.ltb_spec (now st1 - now st1) timeoutMs); [lia|reflexivity]. }
  split; [exact Hw|]. split.
  - unfold main, case_invoice. rewrite Hsetup, Hw. reflexivity.
  - apply invoice_setup_cases in Hsetup. destruct Hsetup as (? & ? & _).
    split; assumption.
Qed.

Lemma invoice_with_nonpositive_timeout_witness :
  exists st1,
    main (mkEnv (fun _ => Some (-5)) (Resolves [the_mint])
            (Resolves (quote_in "UNPAID"))
            (fun _ => Resolves (Some (quote_in "ISSUED")))
            (fun _ => 0%N) (fun _ => Resolves tt) (fun _ => 0%N)
            (fun _ => 0%N))
         Invoice ["-5"; "https://mint.example"; "-5"] (init 0)
    = Some (0, cleanup (emit (LogPaymentTimeout "q1" "https://mint.example")
                          st1))
    /\ reads st1 = 0%nat.
Proof.
  eexists.
  refine (let H := invoice_with_nonpositive_timeout
                     (mkEnv (fun _ => Some (-5)) (Resolves [the_mint])
                        (Resolves (quote_in "UNPAID"))
                        (fun _ => Resolves (Some (quote_in "ISSUED")))
                        (fun _ => 0%N) (fun _ => Resolves tt) (fun _ => 0%N)
                        (fun _ => 0%N))
                     ["-5"; "https://mint.example"; "-5"] (init 0) _ (-5)
                     "https://mint.example" (quote_in "UNPAID") eq_refl _ in
          conj (proj1 (proj2 H)) (proj1 (proj2 (proj2 H)))).
  lia.
Defined.

(** ** The manual check is a single shot *)

(** X7: one run of the manual check never sleeps, attempts at most one
    redemption, reads the store once or twice, and takes no longer than
    those calls; when it ends by [process.exit] the code is 1 and the
    last line is the redeeming error, and when it throws (the second store
    read failed) it has printed nothing. *)
Theorem check_attempt_is_single_shot (env : Env) (st : State) :
  sleeps (snd (check_attempt env st)) = sleeps st
  /\ (redeems st <= redeems (snd (check_attempt env st)) <= S (redeems st))%nat
  /\ (reads st < reads (snd (check_attempt env st)) <= reads st + 2)%nat
  /\ now st <= now (snd (check_attempt env st))
     <= now st + Z.of_N (getMintQuote_ms env (reads st))
        + Z.of_N (getMintQuote_ms env (S (reads st)))
        + Z.of_N (redeemMintQuote_ms env (redeems st))
  /\ match fst (check_attempt env st) with
     | Ok _ =>
         List.length (out (snd (check_attempt env st)))
         = S (List.length (out st))
     | Throw _ => out (snd (check_attempt env st)) = out st
     | Exit c =>
         c = 1 /\ exists m, out (snd (check_attempt env st))
                            = ErrRedeeming m :: out st
     end.
Proof.
  js_unfold. js_cases; js_state; repeat split; try lia; eexists; reflexivity.
Qed.

(** ** Success by redemption *)

(** X8: the quote is not yet issued in the store (or the store does not
    know it) and the redemption succeeds.  A round of the loop that starts
    in time ends the loop with [paid] set after that one redemption,
    without sleeping; the manual check prints the paid line; both commands
    exit with code 0. *)
Theorem redemption_success_resolves (env : Env) (st : State)
  (lq : option MintQuote) (u : unit) :
  getMintQuote env (reads st) = Resolves lq ->
  isIssued lq = false ->
  redeemMintQuote env (redeems st) = Resolves u ->
  (forall fuel timeoutMs startTime,
      now st - startTime < timeoutMs ->
      wait_loop (S fuel) env timeoutMs startTime st
      = Some (Ok true, after_redeem env (after_read env st)))
  /\ check_attempt env st
     = (Ok tt, emit LogPaid (after_redeem env (after_read env st)))
  /\ redeems (after_redeem env (after_read env st)) = S (redeems st)
  /\ sleeps (after_redeem env (after_read env st)) = sleeps st
  /\ (forall args s timeoutMs url q,
         invoice_setup env args s = (Ok (timeoutMs, url, q), st) ->
         0 < timeoutMs ->
         main env Invoice args s
         = Some (0, cleanup (emit LogInvoicePaid
                               (after_redeem env (after_read env st)))))
  /\ (forall args url,
         truthy (nth_error args 0) = true ->
         mintUrl_or_first env (nth_error args 1) st = (Ok (Some url), st) ->
         url <> "" ->
         main env CheckInvoice args st
         = Some (0, cleanup (emit LogPaid
                               (after_redeem env (after_read env st))))).
Proof.
  intros Hread Hlq Hred.
  pose proof (invoice_attempt_not_issued env st lq Hread Hlq) as Hi.
  pose proof (check_attempt_not_issued env st lq Hread Hlq) as Hc.
  rewrite Hred in Hi, Hc.
  split; [|split; [exact Hc|split; [reflexivity|split; [reflexivity|split]]]].
  - intros fuel timeoutMs startTime Hlt. rewrite wait_loop_unfold, Hi.
    destruct (Z.ltb_spec (now st - startTime) timeoutMs); [reflexivity|lia].
  - intros args s timeoutMs url q Hsetup Hpos.
    unfold main, case_invoice. rewrite Hsetup.
    rewrite wait_for_payment_first by exact Hpos. rewrite Hi. reflexivity.
  - intros args url Hq Hmint Hurl.
    unfold main, case_check_invoice, bind. rewrite Hq. cbn [negb].
    rewrite Hmint. unfold truthy.
    destruct (String.eqb_spec url ""); [contradiction|]. cbn [negb].
    now rewrite Hc.
Qed.

Lemma redemption_success_resolves_witness :
  check_attempt (scripted (fun _ => Resolves (Some (quote_in "PAID")))
                          (fun _ => Resolves tt) 2 150 1) (init 0)
  = (Ok tt, emit LogPaid
              (after_redeem (scripted (fun _ => Resolves (Some (quote_in "PAID")))
                                      (fun _ => Resolves tt) 2 150 1)
                 (after_read (scripted (fun _ => Resolves (Some (quote_in "PAID")))
                                       (fun _ => Resolves tt) 2 150 1)
                    (init 0)))).
Proof.
  exact (proj1 (proj2 (redemption_success_resolves
                         (scripted (fun _ => Resolves (Some (quote_in "PAID")))
                                   (fun _ => Resolves tt) 2 150 1)
                         (init 0) (Some (quote_in "PAID")) tt
                         eq_refl eq_refl eq_refl))).
Defined.

(** ** The two paths agree on whole attempts *)

(** The [try] blocks of the two commands do the same calls; the manual one
    prints the paid line where the loop's sets [paid]. *)
Lemma check_try_is_invoice_try (env : Env) (st : State) :
  check_try env st =
    match invoice_try env st with
    | (Ok _, st1) => (Ok tt, emit LogPaid st1)
    | (Throw e, st1) => (Throw e, st1)
    | (Exit c, st1) => (Exit c, st1)
    end.
Proof.
  js_unfold. unfold check_try, invoice_try, bind, ret, console.
  js_unfold. js_cases; reflexivity.
Qed.

(** X9: from the same state and against the same collaborators, one round
    of the loop and one manual check reach the same verdict (success,
    pending or fatal), unless the error they catch contains "Tokens already
    minted" without "already issued" or "already spent". *)
Theorem attempts_agree_without_tokens_already_minted (env : Env) (st : State) :
  (forall e st1,
      invoice_try env st = (Throw e, st1) ->
      includes (message_or_empty e) "Tokens already minted" = false
      \/ check_duplicate_signal (message_or_empty e) = true) ->
  loop_verdict (invoice_attempt env st)
  = manual_verdict (check_attempt env st).
Proof.
  intros Hmsg. unfold invoice_attempt, check_attempt, try_catch.
  rewrite check_try_is_invoice_try.
  destruct (invoice_try env st) as [[b|e|c] st1] eqn:Ht.
  - assert (b = true) as ->.
    { revert Ht. js_unfold. js_cases; intros Ht; inversion Ht; reflexivity. }
    reflexivity.
  - apply handlers_agree_elsewhere. exact (Hmsg e st1 eq_refl).
  - reflexivity.
Qed.

Lemma attempts_agree_without_tokens_already_minted_witness :
  loop_verdict (invoice_attempt stale_store (init 0))
  = manual_verdict (check_attempt stale_store (init 0)).
Proof.
  apply attempts_agree_without_tokens_already_minted.
  intros e st1 H. vm_compute in H. inversion H; subst.
  right. reflexivity.
Defined.

(** * The whole program *)

(** ** The loops that print *)

Lemma balance_loop_spec (entries : list (string * Z)) :
  forall (total : JsSum) (w : World),
    balance_loop entries total w
    = (Ok (fold_left js_add (map snd entries) total),
       mkWorld (core w) (calls w)
               (rev (map (fun e => LogBalance (fst e) (snd e)) entries)
                  ++ lines w)).
Proof.
  induction entries as [|[mint balance] rest IH]; intros total w.
  - simpl. unfold retW. now destruct w.
  - cbn [balance_loop]. unfold bindW, write. rewrite IH.
    cbn [core calls lines map rev fold_left fst snd].
    rewrite <- app_assoc. reflexivity.
Qed.

Lemma mints_loop_spec (mints : list Mint) :
  forall w : World,
    mints_loop mints w
    = (Ok tt,
       mkWorld (core w) (calls w)
               (rev (map (fun m => LogMint (mintUrl m) (trusted m)) mints)
                  ++ lines w)).
Proof.
  induction mints as [|m rest IH]; intros w.
  - simpl. unfold retW. now destruct w.
  - cbn [mints_loop]. unfold bindW, write. rewrite IH.
    cbn [core calls lines map rev]. now rewrite <- app_assoc.
Qed.

Lemma history_loop_spec (history : list HistoryEntry) :
  forall w : World,
    history_loop history w
    = (Ok tt,
       mkWorld (core w) (calls w) (rev (map history_line history) ++ lines w)).
Proof.
  induction history as [|h rest IH]; intros w.
  - simpl. unfold retW. now destruct w.
  - cbn [history_loop]. unfold bindW, write. rewrite IH.
    cbn [core calls lines map rev]. now rewrite <- app_assoc.
Qed.

(** ** No command runs the cleanup itself or exits with another code
    than 1 *)

Lemma invoice_attempt_disposed (env : Env) (st : State) :
  disposed (snd (invoice_attempt env st)) = disposed st.
Proof. js_unfold. js_cases; reflexivity. Qed.

Lemma wait_loop_disposed (env : Env) (timeoutMs startTime : Z) :
  forall (fuel : nat) (st : State) (r : Res bool) (st' : State),
    wait_loop fuel env timeoutMs startTime st = Some (r, st') ->
    disposed st' = disposed st.
Proof.
  induction fuel as [|fuel IH]; intros st r st' H; [discriminate|].
  rewrite wait_loop_unfold in H.
  destruct (now st - startTime <? timeoutMs).
  - pose proof (invoice_attempt_disposed env st) as Hd.
    destruct (invoice_attempt env st) as [[[|]|e|c] st1]; cbn [snd] in Hd;
      try (inversion H; subst; exact Hd).
    rewrite (IH _ _ _ H). exact Hd.
  - inversion H; subst. reflexivity.
Qed.

Lemma case_invoice_keeps (env : Env) (args : list string) (st st' : State)
  (r : Res unit) :
  case_invoice env args st = Some (r, st') -> keeps st r st'.
Proof.
  unfold case_invoice, keeps.
  destruct (invoice_setup env args st) as [[[[t url] q]|e|c] st1] eqn:Hs;
    apply invoice_setup_cases in Hs;
    destruct Hs as (_ & _ & _ & _ & Hs).
  - destruct Hs as (_ & _ & _ & _ & _ & amount & _ & _ & ->).
    destruct (wait_for_payment env t _) as [[[paid|e|c] st2]|] eqn:Hw;
      try discriminate.
    + apply wait_loop_disposed in Hw.
      unfold invoice_report, console.
      destruct paid; intros H; inversion H; subst;
        (split; [exact Hw | discriminate]).
    + apply wait_loop_disposed in Hw. intros H. inversion H; subst.
      split; [exact Hw | discriminate].
    + exfalso. exact (wait_loop_never_exits _ _ _ _ _ _ _ Hw).
  - destruct Hs as [-> _]. intros H. inversion H; subst.
    split; [reflexivity | discriminate].
  - destruct Hs as [-> ->]. intros H. inversion H; subst.
    split; [reflexivity | intros c' Hc; now inversion Hc].
Qed.

Lemma case_check_invoice_keeps (env : Env) (args : list string) (st : State) :
  keeps st (fst (case_check_invoice env args st))
        (snd (case_check_invoice env args st)).
Proof.
  unfold case_check_invoice, keeps, bind.
  destruct (truthy (nth_error args 0)); cbn [negb];
    [|split; [reflexivity | intros c Hc; now inversion Hc]].
  destruct (mintUrl_or_first env (nth_error args 1) st) as [[mint|e|c] s1] eqn:Hm;
    apply mintUrl_or_first_state in Hm; destruct Hm as (-> & Hx & _).
  - destruct (truthy mint); cbn [negb];
      [|split; [reflexivity | intros c Hc; now inversion Hc]].
    js_unfold. js_cases; (split; [reflexivity | intros c Hc; now inversion Hc]).
  - split; [reflexivity | discriminate].
  - exfalso. exact (Hx c eq_refl).
Qed.

(** Finding the mint leaves the world as it is. *)
Lemma lift_mintUrl_or_first (env : Env) (arg : option string) (w : World) :
  lift (mintUrl_or_first env arg) w =
    (if truthy arg then Ok arg
     else match getAllMints env with
          | Resolves mints => Ok (option_map mintUrl (hd_error mints))
          | Rejects e => Throw e
          end,
     w).
Proof.
  unfold lift, mintUrl_or_first, bind, await, ret.
  destruct w as [st cs ls]. cbn [core calls lines].
  destruct (truthy arg); [reflexivity|].
  destruct (getAllMints env); reflexivity.
Qed.

Lemma lift_await {A} (p : Settled A) (w : World) :
  lift (await p) w =
    (match p with Resolves a => Ok a | Rejects e => Throw e end, w).
Proof.
  unfold lift, await. destruct w as [st cs ls]. cbn [core calls lines].
  destruct p; reflexivity.
Qed.

Ltac w_cases :=
  repeat (w_red;
          rewrite ?lift_mintUrl_or_first, ?lift_await, ?balance_loop_spec,
            ?mints_loop_spec, ?history_loop_spec;
          try w_case_step);
  w_red.

(** The commands written for [World] leave its [core] alone. *)
Lemma wallet_cases_keep_core (env : Env) (coco : Wallet) (args : list string)
  (w : World) :
  (core (snd (case_balance coco w)) = core w
   /\ forall c, fst (case_balance coco w) = Exit c -> c = 1)
  /\ (core (snd (case_add_mint coco args w)) = core w
      /\ forall c, fst (case_add_mint coco args w) = Exit c -> c = 1)
  /\ (core (snd (case_send env coco args w)) = core w
      /\ forall c, fst (case_send env coco args w) = Exit c -> c = 1)
  /\ (core (snd (case_pay_invoice env coco args w)) = core w
      /\ forall c, fst (case_pay_invoice env coco args w) = Exit c -> c = 1)
  /\ (core (snd (case_mints env w)) = core w
      /\ forall c, fst (case_mints env w) = Exit c -> c = 1)
  /\ (core (snd (case_history env coco args w)) = core w
      /\ forall c, fst (case_history env coco args w) = Exit c -> c = 1)
  /\ (core (snd (case_restore coco args w)) = core w
      /\ forall c, fst (case_restore coco args w) = Exit c -> c = 1)
  /\ (core (snd (case_receive coco args w)) = core w
      /\ forall c, fst (case_receive coco args w) = Exit c -> c = 1).
Proof.
  repeat apply conj.
  all: w_unfold; w_cases.
  all: try reflexivity.
  all: intros c Hc; now inversion Hc.
Qed.

Lemma switch_keeps (env : Env) (coco : Wallet) (command : option string)
  (args : list string) (w w' : World) (r : Res unit) :
  switch env coco command args w = Some (r, w') ->
  keeps (core w) r (core w').
Proof.
  pose proof (wallet_cases_keep_core env coco args w)
    as (Hb & Ha & Hs & Hp & Hm & Hh & Hr & Hv).
  assert (forall (body : Res unit * World),
             core (snd body) = core w
             /\ (forall c, fst body = Exit c -> c = 1) ->
             Some body = Some (r, w') -> keeps (core w) r (core w')) as Hw.
  { intros body [Hcore Hexit] H. inversion H; subst. cbn [fst snd] in *.
    split; [now rewrite Hcore | exact Hexit]. }
  assert (Some (write LogHelp w) = Some (r, w') ->
          keeps (core w) r (core w')) as Hhelp.
  { intros H. inversion H; subst. split; [reflexivity | discriminate]. }
  unfold switch. destruct command as [c|]; [|exact Hhelp].
  destruct (c =? "balance")%string; [now apply Hw|].
  destruct (c =? "add-mint")%string; [now apply Hw|].
  destruct (c =? "invoice")%string.
  { unfold lift_case.
    destruct (case_invoice env args (core w)) as [[r0 st']|] eqn:Hi;
      [|discriminate].
    intros H. inversion H; subst. cbn [core].
    exact (case_invoice_keeps env args (core w) st' r Hi). }
  destruct (c =? "check-invoice")%string.
  { unfold lift.
    pose proof (case_check_invoice_keeps env args (core w)) as Hk.
    destruct (case_check_invoice env args (core w)) as [r0 st'].
    intros H. inversion H; subst. exact Hk. }
  destruct (c =? "send")%string; [now apply Hw|].
  destruct (c =? "pay-invoice")%string; [now apply Hw|].
  destruct (c =? "mints")%string; [now apply Hw|].
  destruct (c =? "history")%string; [now apply Hw|].
  destruct (c =? "restore")%string; [now apply Hw|].
  destruct (c =? "receive")%string; [now apply Hw|].
  exact Hhelp.
Qed.

(** X10: how any command ends.  Whenever a command makes the process
    exit, the code is 0 or 1.  With code 0 the cleanup has run.  With code
    1 either the error was caught by the outer handler, which prints it
    and runs the cleanup, or the command called [process.exit(1)] itself
    (a usage error, no mint, a failed send, payment, restore, receive or
    redemption), and then the cleanup has not run: the wallet is not
    disposed and the database not closed. *)
Theorem main_all_exit_and_cleanup (env : Env) (coco : Wallet)
  (command : option string) (args : list string) (w w' : World) (code : Z) :
  main_all env coco command args w = Some (code, w') ->
  (code = 0 /\ disposed (core w') = true)
  \/ (code = 1 /\ disposed (core w') = true
      /\ exists m rest, out (core w') = ErrError m :: rest)
  \/ (code = 1 /\ disposed (core w') = disposed (core w)
      /\ switch env coco command args w = Some (Exit 1, w')).
Proof.
  unfold main_all.
  destruct (switch env coco command args w) as [[r w1]|] eqn:Hs;
    [|discriminate].
  pose proof (switch_keeps env coco command args w w1 r Hs) as [Hd Hx].
  destruct r as [u|e|c]; intros H; inversion H; subst; clear H.
  - left. split; reflexivity.
  - right. left. split; [reflexivity|]. split; [reflexivity|].
    eexists; eexists; reflexivity.
  - rewrite (Hx code eq_refl) in *. right. right.
    split; [reflexivity|]. split; [exact Hd | reflexivity].
Qed.

Lemma main_all_exit_and_cleanup_witness :
  (1 = 0 /\ disposed (core (new_world 0)) = true)
  \/ (1 = 1 /\ disposed (core (new_world 0)) = true
      /\ exists m rest, out (core (new_world 0)) = ErrError m :: rest)
  \/ (1 = 1
      /\ disposed (core (mkWorld (core (new_world 0))
                                 [CallReceive "cashuBbad"]
                                 [ErrReceiving (Some "Token already spent")]))
         = disposed (core (new_world 0))
      /\ switch already_issued_env (refusing_wallet "Token already spent")
                (Some "receive") ["cashuBbad"] (new_world 0)
         = Some (Exit 1,
                 mkWorld (core (new_world 0)) [CallReceive "cashuBbad"]
                         [ErrReceiving (Some "Token already spent")])).
Proof.
  right. right.
  destruct (main_all_exit_and_cleanup already_issued_env
              (refusing_wallet "Token already spent") (Some "receive")
              ["cashuBbad"] (new_world 0)
              (mkWorld (core (new_world 0)) [CallReceive "cashuBbad"]
                       [ErrReceiving (Some "Token already spent")])
              1 eq_refl)
    as [[H _]|[(_ & H & _)|H]]; [discriminate H | discriminate H | exact H].
Defined.

(** ** Usage errors and unknown commands *)

(** X11: a command that needs an argument and is given none (or an empty
    one) exits with code 1 after printing its own usage line, and does
    nothing else: no call to the wallet, no read of the store, no
    redemption, no cleanup.  This holds for [add-mint], [check-invoice],
    [pay-invoice], [restore] and [receive], each with the usage line of
    that command. *)
Theorem missing_argument_makes_no_call (env : Env) (coco : Wallet)
  (args : list string) (w : World) :
  truthy (nth_error args 0) = false ->
  main_all env coco (Some "add-mint") args w
  = Some (1, mkWorld (core w) (calls w) (ErrUsageAddMint :: lines w))
  /\ main_all env coco (Some "check-invoice") args w
     = Some (1, mkWorld (emit ErrUsageCheckInvoice (core w)) (calls w) (lines w))
  /\ main_all env coco (Some "pay-invoice") args w
     = Some (1, mkWorld (core w) (calls w) (ErrUsagePayInvoice :: lines w))
  /\ main_all env coco (Some "restore") args w
     = Some (1, mkWorld (core w) (calls w) (ErrUsageRestore :: lines w))
  /\ main_all env coco (Some "receive") args w
     = Some (1, mkWorld (core w) (calls w) (ErrUsageReceive :: lines w)).
Proof.
  intros Harg.
  assert (nth_error args 0 = None
          \/ exists a, nth_error args 0 = Some a /\ truthy (Some a) = false)
    as Hcases.
  { destruct (nth_error args 0) as [a|]; [right; now exists a | now left]. }
  repeat apply conj;
    unfold main_all, switch; cbn [String.eqb Ascii.eqb Bool.eqb];
    unfold case_add_mint, case_pay_invoice, case_restore, case_receive,
      lift, case_check_invoice, bind, console, process_exit, bindW, write,
      exitW;
    rewrite ?Harg; cbn [negb];
    try (destruct Hcases as [->|(a & -> & ->)]; cbn [negb]);
    reflexivity.
Qed.

Lemma missing_argument_makes_no_call_witness :
  main_all already_issued_env willing_wallet (Some "restore") [""]
           (new_world 0)
  = Some (1, mkWorld (core (new_world 0)) [] [ErrUsageRestore]).
Proof.
  apply (missing_argument_makes_no_call already_issued_env willing_wallet
           [""] (new_world 0)).
  reflexivity.
Defined.

(** X12: a command the switch does not know, or no command at all, is not
    an error: the help text is printed, nothing is called, the cleanup runs
    and the exit code is 0. *)
Theorem unknown_command_prints_help (env : Env) (coco : Wallet)
  (command : option string) (args : list string) (w : World) :
  (forall c, command = Some c -> ~ In c known_commands) ->
  main_all env coco command args w
  = Some (0, mkWorld (cleanup (core w)) (calls w) (LogHelp :: lines w)).
Proof.
  intros Hunknown. unfold main_all, switch.
  destruct command as [c|]; [|reflexivity].
  specialize (Hunknown c eq_refl). unfold known_commands in Hunknown.
  cbn [In] in Hunknown.
  repeat match goal with
         | |- context [(c =? ?k)%string] =>
             destruct (String.eqb_spec c k);
             [exfalso; apply Hunknown; subst c; auto 15|]
         end.
  reflexivity.
Qed.

Lemma unknown_command_prints_help_witness :
  main_all already_issued_env willing_wallet (Some "ballance") []
           (new_world 0)
  = Some (0, mkWorld (cleanup (core (new_world 0))) [] [LogHelp]).
Proof.
  apply (unknown_command_prints_help already_issued_env willing_wallet
           (Some "ballance") [] (new_world 0)).
  intros c Hc. inversion Hc; subst. unfold known_commands. cbn [In].
  intros H. repeat (destruct H as [H|H]; [discriminate H|]). exact H.
Defined.

(** ** [balance] *)

(** As long as every running total stays below 2^53 in size, the
    additions of the loop are exact. *)
Lemma js_sum_exact (balances : list Z) :
  forall t : Z,
    (forall k, Z.abs (t + fold_right Z.add 0 (firstn k balances)) < 2 ^ 53) ->
    fold_left js_add balances (Finite t)
    = Finite (t + fold_right Z.add 0 balances).
Proof.
  induction balances as [|b rest IH]; intros t Hsafe.
  - cbn [fold_left fold_right]. now rewrite Z.add_0_r.
  - cbn [fold_left fold_right js_add].
    assert ((Z.abs (t + b) <? 2 ^ 53) = true) as Hb.
    { apply Z.ltb_lt. specialize (Hsafe 1%nat).
      cbn [firstn fold_right] in Hsafe. now rewrite Z.add_0_r in Hsafe. }
    unfold round_to_double. cbv zeta. rewrite Hb.
    rewrite IH.
    + now rewrite Z.add_assoc.
    + intros k. specialize (Hsafe (S k)). cbn [firstn fold_right] in Hsafe.
      now rewrite Z.add_assoc in Hsafe.
Qed.

(** Above that size they are not: 2^53 + 1 is not a double, and the loop
    gets 2^53. *)
Lemma js_sum_rounds :
  fold_left js_add [2 ^ 53; 1] (Finite 0) = Finite (2 ^ 53).
Proof. vm_compute. reflexivity. Qed.

(** X13: [balance] asks the wallet once, prints one line for each mint in
    the order of the balances object, then the total, and exits with code
    0.  The total is what the additions of doubles give; it is the exact
    sum of the balances whenever every running total stays below 2^53 in
    size.  When the wallet refuses, the error is printed by the outer
    handler, no balance line is printed and the exit code is 1. *)
Theorem balance_prints_every_mint_and_the_sum (env : Env) (coco : Wallet)
  (args : list string) (w : World) :
  (forall entries,
      getBalances coco = Resolves entries ->
      exists total,
        main_all env coco (Some "balance") args w
        = Some (0, mkWorld (cleanup (core w)) (CallGetBalances :: calls w)
                     (LogTotal total
                        :: rev (map (fun e => LogBalance (fst e) (snd e)) entries)
                        ++ LogBalancesHeader :: lines w))
        /\ total = fold_left js_add (map snd entries) (Finite 0)
        /\ ((forall k, Z.abs (fold_right Z.add 0 (firstn k (map snd entries)))
                       < 2 ^ 53) ->
            total = Finite (fold_right Z.add 0 (map snd entries))))
  /\ (forall e,
         getBalances coco = Rejects e ->
         main_all env coco (Some "balance") args w
         = Some (1, mkWorld (cleanup (emit (ErrError (message e)) (core w)))
                      (CallGetBalances :: calls w) (lines w))).
Proof.
  split.
  - intros entries Hb. eexists. split; [|split; [reflexivity|]].
    + unfold main_all, switch. cbn [String.eqb Ascii.eqb Bool.eqb].
      w_unfold. rewrite Hb. rewrite balance_loop_spec. reflexivity.
    + intros Hsafe. apply (js_sum_exact (map snd entries) 0). exact Hsafe.
  - intros e Hb. unfold main_all, switch. cbn [String.eqb Ascii.eqb Bool.eqb].
    w_unfold. now rewrite Hb.
Qed.

Lemma balance_prints_every_mint_and_the_sum_witness :
  exists total,
    main_all already_issued_env willing_wallet (Some "balance") []
             (new_world 0)
    = Some (0, mkWorld (cleanup (core (new_world 0))) [CallGetBalances]
                 [LogTotal total; LogBalance "https://other.example" 42;
                  LogBalance "https://mint.example" 700; LogBalancesHeader])
    /\ total = Finite 742.
Proof.
  destruct (proj1 (balance_prints_every_mint_and_the_sum
                     already_issued_env willing_wallet [] (new_world 0))
                  [("https://mint.example", 700); ("https://other.example", 42)]
                  eq_refl)
    as (total & Hmain & _ & Hexact).
  exists total. split; [exact Hmain|].
  apply Hexact. intros [|[|[|k]]]; vm_compute; reflexivity.
Defined.

(** ** [send] and [pay-invoice] *)

Lemma lift_found_mint (env : Env) (arg : option string) (w : World) :
  lift (mintUrl_or_first env arg) w = (found_mint env arg, w).
Proof. apply lift_mintUrl_or_first. Qed.

Lemma found_mint_is_mintUrl_or_first (env : Env) (arg : option string)
  (st : State) :
  mintUrl_or_first env arg st = (found_mint env arg, st).
Proof.
  unfold mintUrl_or_first, found_mint, bind, await, ret.
  destruct (truthy arg); [reflexivity|].
  destruct (getAllMints env); reflexivity.
Qed.

(** X14: [send] with an amount that parses to a number other than 0 (a
    negative one included) and a mint.  The wallet is asked to prepare the
    send for that mint and amount, and to execute it only if the
    preparation succeeded, with the id it returned.  The exit code is 0
    exactly when preparation, execution and encoding all succeed; then the
    only line printed is the encoded token and the cleanup runs.  Any
    failure prints the send-failed line and exits with code 1 without the
    cleanup. *)
Theorem send_outcomes (env : Env) (coco : Wallet) (args : list string)
  (w : World) (s url : string) (amount : Z) :
  nth_error args 0 = Some s ->
  parseInt env s = Some amount ->
  amount <> 0 ->
  found_mint env (nth_error args 1) = Ok (Some url) ->
  url <> "" ->
  exists code w',
    main_all env coco (Some "send") args w = Some (code, w')
    /\ (calls w' = CallPrepareSend url amount :: calls w
        \/ exists id, prepareSend coco url amount = Resolves id
                      /\ calls w' = CallExecutePreparedSend id
                                      :: CallPrepareSend url amount :: calls w)
    /\ ((code = 0
         /\ core w' = cleanup (core w)
         /\ exists id token encoded,
             prepareSend coco url amount = Resolves id
             /\ executePreparedSend coco id = Resolves token
             /\ getEncodedToken coco token = Resolves encoded
             /\ lines w' = LogToken encoded :: lines w)
        \/ (code = 1
            /\ core w' = core w
            /\ (exists m, lines w' = ErrSendFailed url m :: lines w)
            /\ (forall id token encoded,
                   prepareSend coco url amount = Resolves id ->
                   executePreparedSend coco id = Resolves token ->
                   getEncodedToken coco token = Resolves encoded -> False))).
Proof.
  intros Hs Hparse Hamount Hmint Hurl.
  unfold main_all, switch. cbn [String.eqb Ascii.eqb Bool.eqb].
  unfold case_send, bindW. rewrite lift_found_mint, Hmint, Hs, Hparse.
  unfold falsy_number, truthy.
  destruct (Z.eqb_spec amount 0); [contradiction|].
  destruct (String.eqb_spec url ""); [contradiction|]. cbn [negb].
  w_unfold.
  destruct (prepareSend coco url amount) as [id|e1] eqn:H1; w_red.
  - destruct (executePreparedSend coco id) as [token|e2] eqn:H2; w_red.
    + destruct (getEncodedToken coco token) as [encoded|e3] eqn:H3; w_red.
      * eexists; eexists. split; [reflexivity|]. w_red.
        split; [right; exists id; split; reflexivity|].
        left. split; [reflexivity|]. split; [reflexivity|].
        exists id, token, encoded. repeat split; assumption.
      * eexists; eexists. split; [reflexivity|]. w_red.
        split; [right; exists id; split; reflexivity|].
        right. split; [reflexivity|]. split; [reflexivity|].
        split; [eexists; reflexivity|].
        intros id' token' enc' Hp He Hg. congruence.
    + eexists; eexists. split; [reflexivity|]. w_red.
      split; [right; exists id; split; reflexivity|].
      right. split; [reflexivity|]. split; [reflexivity|].
      split; [eexists; reflexivity|].
      intros id' token' enc' Hp He Hg. congruence.
  - eexists; eexists. split; [reflexivity|]. w_red.
    split; [left; reflexivity|].
    right. split; [reflexivity|]. split; [reflexivity|].
    split; [eexists; reflexivity|].
    intros id' token' enc' Hp He Hg. congruence.
Qed.

Lemma send_outcomes_witness :
  exists code w',
    main_all (reading_as (-5)) willing_wallet (Some "send") ["-5"]
             (new_world 0) = Some (code, w')
    /\ (calls w' = [CallPrepareSend "https://mint.example" (-5)]
        \/ exists id, prepareSend willing_wallet "https://mint.example" (-5)
                      = Resolves id
                      /\ calls w' = [CallExecutePreparedSend id;
                                     CallPrepareSend "https://mint.example" (-5)]).
Proof.
  destruct (send_outcomes (reading_as (-5)) willing_wallet ["-5"]
              (new_world 0) "-5" "https://mint.example" (-5)
              eq_refl eq_refl)
    as (code & w' & Hmain & Hcalls & _).
  - discriminate.
  - reflexivity.
  - discriminate.
  - exists code, w'. split; [exact Hmain | exact Hcalls].
Defined.

(** X15: [send] without a usable amount (missing, not a number, or 0).
    The mint is looked up before the amount is checked: when that lookup
    succeeds the usage line is printed and the process exits with code 1
    without the cleanup; when no mint argument was given and the mint list
    fails, that error reaches the outer handler instead and the usage line
    is never printed.  In both cases nothing is sent. *)
Theorem send_checks_the_amount_after_the_mint (env : Env) (coco : Wallet)
  (args : list string) (w : World) :
  falsy_number (match nth_error args 0 with
                | Some s => parseInt env s
                | None => None
                end) = true ->
  calls (snd (case_send env coco args w)) = calls w
  /\ main_all env coco (Some "send") args w =
       match found_mint env (nth_error args 1) with
       | Throw e =>
           Some (1, mkWorld (cleanup (emit (ErrError (message e)) (core w)))
                            (calls w) (lines w))
       | _ => Some (1, mkWorld (core w) (calls w) (ErrUsageSend :: lines w))
       end.
Proof.
  intros Hfalsy.
  assert (found_mint env (nth_error args 1) <> Exit 0
          /\ forall c, found_mint env (nth_error args 1) <> Exit c) as [_ Hx].
  { split; unfold found_mint; destruct (truthy _); try discriminate;
      destruct (getAllMints env); discriminate. }
  unfold main_all, switch. cbn [String.eqb Ascii.eqb Bool.eqb].
  unfold case_send, bindW. rewrite lift_found_mint.
  destruct (found_mint env (nth_error args 1)) as [mint|e|c];
    [| split; reflexivity | exfalso; exact (Hx c eq_refl)].
  destruct (match nth_error args 0 with
            | Some s => parseInt env s
            | None => None
            end) as [amount|]; [|split; reflexivity].
  unfold falsy_number in *. rewrite Hfalsy. split; reflexivity.
Qed.

Lemma send_checks_the_amount_after_the_mint_witness :
  main_all (reading_as 0) willing_wallet (Some "send") ["0"] (new_world 0)
  = Some (1, mkWorld (core (new_world 0)) [] [ErrUsageSend]).
Proof.
  exact (proj2 (send_checks_the_amount_after_the_mint
                  (reading_as 0) willing_wallet ["0"] (new_world 0) eq_refl)).
Defined.

(** X16: [pay-invoice] with an invoice and a mint.  The wallet is asked to
    prepare the melt for that mint and invoice, and to execute it only if
    the preparation succeeded, with the id of the prepared operation.  The
    exit code is 0 exactly when both succeed, and then the cleanup runs;
    any failure prints the error-paying line last and exits with code 1
    without the cleanup. *)
Theorem pay_invoice_outcomes (env : Env) (coco : Wallet) (args : list string)
  (w : World) (invoice url : string) :
  nth_error args 0 = Some invoice ->
  invoice <> "" ->
  found_mint env (nth_error args 1) = Ok (Some url) ->
  url <> "" ->
  exists code w',
    main_all env coco (Some "pay-invoice") args w = Some (code, w')
    /\ (calls w' = CallPrepareMeltBolt11 url invoice :: calls w
        \/ exists op, prepareMeltBolt11 coco url invoice = Resolves op
                      /\ calls w' = CallExecuteMelt (melt_id op)
                                      :: CallPrepareMeltBolt11 url invoice
                                      :: calls w)
    /\ ((code = 0
         /\ core w' = cleanup (core w)
         /\ exists op result,
             prepareMeltBolt11 coco url invoice = Resolves op
             /\ executeMelt coco (melt_id op) = Resolves result
             /\ In LogPaymentSuccessful (lines w')
             /\ In (LogMeltState (melt_state result)) (lines w'))
        \/ (code = 1
            /\ core w' = core w
            /\ (exists m rest, lines w' = ErrPayingInvoice m :: rest)
            /\ ~ In LogPaymentSuccessful
                    (firstn (List.length (lines w') - List.length (lines w))
                            (lines w'))
            /\ (forall op result,
                   prepareMeltBolt11 coco url invoice = Resolves op ->
                   executeMelt coco (melt_id op) = Resolves result -> False))).
Proof.
  intros Hi Hinv Hmint Hurl.
  unfold main_all, switch. cbn [String.eqb Ascii.eqb Bool.eqb].
  unfold case_pay_invoice. rewrite Hi. unfold truthy at 1.
  destruct (String.eqb_spec invoice ""); [contradiction|]. cbn [negb].
  unfold bindW at 1. rewrite lift_found_mint, Hmint.
  unfold truthy. destruct (String.eqb_spec url ""); [contradiction|].
  cbn [negb]. w_unfold.
  destruct (prepareMeltBolt11 coco url invoice) as [op|e1] eqn:H1; w_red.
  - destruct (executeMelt coco (melt_id op)) as [result|e2] eqn:H2; w_red.
    + destruct (paid_amount result) as [a|]; w_red;
        [unfold falsy_number; destruct (a =? 0); w_red|];
        (eexists; eexists; split; [reflexivity|]; w_red;
         split; [right; exists op; split; reflexivity|];
         left; split; [reflexivity|]; split; [reflexivity|];
         exists op, result; split; [reflexivity|]; split; [exact H2|];
         simpl; tauto).
    + eexists; eexists. split; [reflexivity|]. w_red.
      split; [right; exists op; split; reflexivity|].
      right. split; [reflexivity|]. split; [reflexivity|].
      split; [eexists; eexists; reflexivity|]. split.
      * cbn [List.length]. 
        replace (S (S (S (S (S (List.length (lines w))))))
                 - List.length (lines w))%nat with 5%nat by lia.
        cbn [firstn In]. intros H.
        repeat (destruct H as [H|H]; [discriminate H|]). exact H.
      * intros op' result' Hp He. congruence.
  - eexists; eexists. split; [reflexivity|]. w_red.
    split; [left; reflexivity|].
    right. split; [reflexivity|]. split; [reflexivity|].
    split; [eexists; eexists; reflexivity|]. split.
    + cbn [List.length].
      replace (S (S (List.length (lines w))) - List.length (lines w))%nat
        with 2%nat by lia.
      cbn [firstn In]. intros H.
      repeat (destruct H as [H|H]; [discriminate H|]). exact H.
    + intros op' result' Hp He. congruence.
Qed.

Lemma pay_invoice_outcomes_witness :
  exists code w',
    main_all already_issued_env (refusing_wallet "Insufficient balance")
             (Some "pay-invoice") ["lnbc1"] (new_world 0) = Some (code, w')
    /\ (calls w' = [CallPrepareMeltBolt11 "https://mint.example" "lnbc1"]
        \/ exists op,
            prepareMeltBolt11 (refusing_wallet "Insufficient balance")
                              "https://mint.example" "lnbc1" = Resolves op
            /\ calls w' = [CallExecuteMelt (melt_id op);
                           CallPrepareMeltBolt11 "https://mint.example"
                                                 "lnbc1"]).
Proof.
  destruct (pay_invoice_outcomes already_issued_env
              (refusing_wallet "Insufficient balance") ["lnbc1"]
              (new_world 0) "lnbc1" "https://mint.example" eq_refl)
    as (code & w' & Hmain & Hcalls & _).
  - discriminate.
  - reflexivity.
  - discriminate.
  - exists code, w'. split; [exact Hmain | exact Hcalls].
Defined.

(** ** A mint given on the command line *)

Lemma wait_loop_with_mints (env : Env) (mints : Settled (list Mint))
  (timeoutMs startTime : Z) :
  forall (fuel : nat) (st : State),
    wait_loop fuel (with_mints env mints) timeoutMs startTime st
    = wait_loop fuel env timeoutMs startTime st.
Proof.
  induction fuel as [|fuel IH]; intros st; [reflexivity|].
  rewrite !wait_loop_unfold.
  change (invoice_attempt (with_mints env mints) st)
    with (invoice_attempt env st).
  destruct (now st - startTime <? timeoutMs); [|reflexivity].
  destruct (invoice_attempt env st) as [[[|]|e|c] st']; try reflexivity.
  apply IH.
Qed.

Lemma found_mint_with_mints (env : Env) (mints : Settled (list Mint))
  (arg : option string) :
  truthy arg = true ->
  found_mint (with_mints env mints) arg = found_mint env arg.
Proof. intros H. unfold found_mint. now rewrite H. Qed.

(** X17: when a mint URL is given as the second argument, the list of
    known mints plays no part: whatever [getAllMints] would answer, even an
    error, every command except [mints] itself ends in the same way. *)
Theorem given_mint_overrides_the_mint_list (env : Env) (coco : Wallet)
  (mints : Settled (list Mint)) (command : option string)
  (args : list string) (w : World) :
  command <> Some "mints" ->
  truthy (nth_error args 1) = true ->
  main_all (with_mints env mints) coco command args w
  = main_all env coco command args w.
Proof.
  intros Hcmd Harg. unfold main_all.
  replace (switch (with_mints env mints) coco command args w)
    with (switch env coco command args w); [reflexivity|].
  pose proof (found_mint_with_mints env mints _ Harg) as Hfound.
  unfold switch. destruct command as [c|]; [|reflexivity].
  destruct (c =? "balance")%string; [reflexivity|].
  destruct (c =? "add-mint")%string; [reflexivity|].
  destruct (c =? "invoice")%string.
  { unfold lift_case, case_invoice, invoice_setup, bind.
    rewrite !found_mint_is_mintUrl_or_first, Hfound.
    destruct (found_mint env (nth_error args 1)) as [[url|]|e|x];
      try reflexivity.
    destruct (negb (truthy (Some url))); [reflexivity|].
    change (createMintQuote (with_mints env mints))
      with (createMintQuote env).
    change (parseInt_or (with_mints env mints)) with (parseInt_or env).
    destruct (await (createMintQuote env) (core w)) as [[q|e|x] st1];
      try reflexivity.
    cbv beta iota.
    destruct (console _ st1) as [[u|e|x] st2]; try reflexivity.
    unfold ret, wait_for_payment. rewrite wait_loop_with_mints.
    reflexivity. }
  destruct (c =? "check-invoice")%string.
  { unfold lift, case_check_invoice, bind.
    destruct (negb (truthy (nth_error args 0))); [reflexivity|].
    rewrite !found_mint_is_mintUrl_or_first, Hfound. reflexivity. }
  destruct (c =? "send")%string.
  { unfold case_send, bindW. rewrite !lift_found_mint, Hfound. reflexivity. }
  destruct (c =? "pay-invoice")%string.
  { unfold case_pay_invoice, bindW.
    destruct (nth_error args 0) as [inv|]; [|reflexivity].
    destruct (negb (truthy (Some inv))); [reflexivity|].
    rewrite !lift_found_mint, Hfound. reflexivity. }
  destruct (String.eqb_spec c "mints"); [subst; contradiction|].
  reflexivity.
Qed.

Lemma given_mint_overrides_the_mint_list_witness :
  main_all (with_mints already_issued_env (Rejects (error_of "SQLITE_BUSY")))
           willing_wallet (Some "check-invoice") ["q1"; "https://mint.example"]
           (new_world 0)
  = main_all already_issued_env willing_wallet (Some "check-invoice")
             ["q1"; "https://mint.example"] (new_world 0).
Proof.
  apply given_mint_overrides_the_mint_list.
  - discriminate.
  - reflexivity.
Defined.

(** ** [history] *)

Lemma or_string_truthy (a b : option string) :
  truthy b = true -> truthy (or_string a b) = true.
Proof. intros Hb. unfold or_string. destruct (truthy a) eqn:Ha; assumption. Qed.

(** X18: [history] asks the wallet once, for the page at the given offset
    and with the given limit, where a limit that is missing, not a number
    or 0 becomes 20 (so the limit is never 0) and such an offset 0.  An
    empty page prints the no-history line alone; otherwise a header with
    the number of entries and one line for each entry, in order.  The
    status shown on a line is never empty: it falls back from [status] to
    [state] to COMPLETED. *)
Theorem history_outcomes (env : Env) (coco : Wallet) (args : list string)
  (w : World) (page : list HistoryEntry) :
  getPaginatedHistory coco (parseInt_or env (nth_error args 1) 0)
                      (parseInt_or env (nth_error args 0) 20)
  = Resolves page ->
  parseInt_or env (nth_error args 0) 20 <> 0
  /\ main_all env coco (Some "history") args w
     = Some (0, mkWorld (cleanup (core w))
                  (CallGetPaginatedHistory
                     (parseInt_or env (nth_error args 1) 0)
                     (parseInt_or env (nth_error args 0) 20) :: calls w)
                  (match page with
                   | [] => LogNoHistory :: lines w
                   | _ :: _ =>
                       rev (map history_line page)
                         ++ LogHistoryHeader (List.length page) :: lines w
                   end))
  /\ (forall h date type_ plus amount mint status id,
         history_line h = LogHistoryItem date type_ plus amount mint status id ->
         status <> "" /\ type_ <> ""
         /\ (plus = true <-> 0 < amount)
         /\ (id <> NoId ->
             h_type h = Some "mint" \/ h_type h = Some "melt"
             \/ h_type h = Some "send")).
Proof.
  intros Hpage. split; [apply parseInt_or_nonzero; discriminate|]. split.
  - unfold main_all, switch. cbn [String.eqb Ascii.eqb Bool.eqb].
    unfold case_history. w_unfold. rewrite Hpage.
    destruct page as [|h rest]; [reflexivity|].
    rewrite history_loop_spec. reflexivity.
  - intros h date type_ plus amount mint status id Hline.
    unfold history_line in Hline. inversion Hline; subst; clear Hline.
    split; [|split; [|split]].
    + pose proof (or_string_truthy (or_string (h_status h) (h_state h))
                    (Some "COMPLETED") eq_refl) as Ht.
      destruct (or_string (or_string (h_status h) (h_state h))
                          (Some "COMPLETED")) as [s|]; [|discriminate].
      intros ->. discriminate Ht.
    + pose proof (or_string_truthy (h_type h) (Some "UNKNOWN") eq_refl) as Ht.
      destruct (or_string (h_type h) (Some "UNKNOWN")) as [s|]; [|discriminate].
      intros ->. discriminate Ht.
    + apply Z.ltb_lt.
    + destruct (h_type h) as [t|]; [|intros H; now destruct H].
      destruct (String.eqb_spec t "mint"); [subst; auto|].
      destruct (String.eqb_spec t "melt"); [subst; auto|].
      destruct (String.eqb_spec t "send"); [subst; auto|].
      cbn [orb]. intros H; now destruct H.
Qed.

Lemma history_outcomes_witness :
  parseInt_or (reading_as 0) (nth_error ["0"] 0) 20 <> 0.
Proof.
  apply (history_outcomes (reading_as 0) willing_wallet ["0"] (new_world 0) []).
  reflexivity.
Defined.

(** * Start-up *)

(** ** The seed *)

Lemma hex_pair_roundtrip (b : Byte.byte) (rest : string) :
  Buffer_from_hex
    (String (hex_digit (Byte.to_N b / 16))
            (String (hex_digit (Byte.to_N b mod 16)) rest))
  = b :: Buffer_from_hex rest.
Proof. destruct b; reflexivity. Qed.

Lemma Buffer_from_hex_toString_hex (bytes : list Byte.byte) :
  Buffer_from_hex (toString_hex bytes) = bytes.
Proof.
  induction bytes as [|b rest IH]; [reflexivity|].
  cbn [toString_hex]. rewrite hex_pair_roundtrip, IH. reflexivity.
Qed.

Lemma toString_hex_length (bytes : list Byte.byte) :
  String.length (toString_hex bytes) = (2 * List.length bytes)%nat.
Proof.
  induction bytes as [|b rest IH]; [reflexivity|].
  cbn [toString_hex String.length List.length]. rewrite IH. lia.
Qed.

(** X19: writing bytes as hexadecimal text and reading that text back
    gives the same bytes, and the text has two characters a byte. *)
Theorem hex_roundtrip (bytes : list Byte.byte) :
  Buffer_from_hex (toString_hex bytes) = bytes
  /\ String.length (toString_hex bytes) = (2 * List.length bytes)%nat.
Proof.
  split; [apply Buffer_from_hex_toString_hex | apply toString_hex_length].
Qed.

(** X20: the seed is drawn once.  On a disk that can be read and written,
    [seedGetter] returns a seed and leaves a seed file behind, and every
    later call returns that same seed and leaves the file as it is,
    whatever the source of entropy would give then.  A seed that was just
    drawn has the 64 bytes asked for and is stored as 128 characters. *)
Theorem seedGetter_is_stable (randomBytes randomBytes' : nat -> list Byte.byte)
  (disk : Disk) :
  io_throws disk = None ->
  exists seed disk',
    seedGetter randomBytes disk = (Ok seed, disk')
    /\ seedGetter randomBytes' disk' = (Ok seed, disk')
    /\ (seed_txt disk <> None -> disk' = disk)
    /\ (seed_txt disk = None ->
        seed = randomBytes 64%nat
        /\ seed_txt disk' = Some (toString_hex seed)
        /\ (List.length (randomBytes 64%nat) = 64%nat ->
            List.length seed = 64%nat
            /\ String.length (toString_hex seed) = 128%nat)).
Proof.
  intros Hio. unfold seedGetter. rewrite Hio.
  destruct (seed_txt disk) as [text|] eqn:Htxt.
  - exists (Buffer_from_hex text), disk. rewrite Htxt, Hio.
    repeat split; intros; congruence.
  - eexists; eexists. split; [reflexivity|]. cbn [seed_txt io_throws].
    rewrite Buffer_from_hex_toString_hex.
    split; [reflexivity|]. split; [intros H; now destruct H|].
    intros _. split; [reflexivity|]. split; [reflexivity|].
    intros Hlen. split; [exact Hlen|].
    rewrite toString_hex_length, Hlen. reflexivity.
Qed.

Lemma seedGetter_is_stable_witness :
  exists seed disk',
    seedGetter (fun n => repeat Byte.x2a n) (mkDisk None None)
    = (Ok seed, disk')
    /\ seedGetter (fun n => repeat Byte.xff n) disk' = (Ok seed, disk').
Proof.
  destruct (seedGetter_is_stable (fun n => repeat Byte.x2a n)
              (fun n => repeat Byte.xff n) (mkDisk None None) eq_refl)
    as (seed & disk' & H1 & H2 & _).
  exists seed, disk'. split; [exact H1 | exact H2].
Defined.

Lemma Buffer_from_hex_length (s : string) :
  (2 * List.length (Buffer_from_hex s) <= String.length s)%nat
  /\ forall c, (2 * List.length (Buffer_from_hex (String c s))
                <= S (String.length s))%nat.
Proof.
  induction s as [|d s [IH IHc]].
  - split; [simpl; lia | intros c; simpl; lia].
  - split; [apply IHc|]. intros c. cbn [Buffer_from_hex].
    destruct (hex_value c); [|cbn [List.length String.length]; lia].
    destruct (hex_value d); cbn [List.length String.length]; lia.
Qed.

(** X21: an existing seed file is taken as it is.  [seedGetter] never
    rewrites it and draws no entropy; it returns the bytes of the leading
    pairs of hexadecimal digits without checking that there are 64 of
    them, so a file of fewer than 128 characters gives a seed of fewer than
    64 bytes, and no error. *)
Theorem seedGetter_trusts_the_file (randomBytes : nat -> list Byte.byte)
  (disk : Disk) (text : string) :
  seed_txt disk = Some text ->
  io_throws disk = None ->
  seedGetter randomBytes disk = (Ok (Buffer_from_hex text), disk)
  /\ (2 * List.length (Buffer_from_hex text) <= String.length text)%nat
  /\ ((String.length text < 128)%nat ->
      (List.length (Buffer_from_hex text) < 64)%nat)
  /\ (forall bytes rest c,
         text = (toString_hex bytes ++ String c rest)%string ->
         hex_value c = None ->
         Buffer_from_hex text = bytes).
Proof.
  intros Htxt Hio. unfold seedGetter. rewrite Htxt, Hio.
  pose proof (proj1 (Buffer_from_hex_length text)) as Hlen.
  split; [reflexivity|]. split; [exact Hlen|]. split; [lia|].
  intros bytes rest c -> Hc. clear Htxt Hlen.
  induction bytes as [|b bytes IH].
  - cbn [toString_hex append]. destruct rest as [|d rest]; [reflexivity|].
    cbn [Buffer_from_hex]. now rewrite Hc.
  - cbn [toString_hex append]. rewrite hex_pair_roundtrip, IH. reflexivity.
Qed.

Lemma seedGetter_trusts_the_file_witness :
  seedGetter (fun n => repeat Byte.x2a n) (mkDisk (Some "0aF") None)
  = (Ok (Buffer_from_hex "0aF"), mkDisk (Some "0aF") None).
Proof.
  apply (seedGetter_trusts_the_file (fun n => repeat Byte.x2a n)
           (mkDisk (Some "0aF") None) "0aF"); reflexivity.
Defined.

(** ** The wallet directory *)

(** X22: the directories at start-up.  Whenever the start-up code
    returns, the wallet directory exists.  A wallet directory that was
    already there is left alone, and so is the old one beside it: nothing
    is renamed, created or printed.  The old directory is moved only when
    there is no wallet directory yet; if that move fails, the failure is
    printed, a new empty wallet directory is made and the old one stays
    where it was.  The only way to fail is that the directory cannot be
    made. *)
Theorem startup_leaves_a_wallet_directory
  (rename_throws mkdir_throws : option JsError) (d : Dirs) :
  (forall d' written,
      startup rename_throws mkdir_throws d = (Ok tt, d', written) ->
      wallet_dir d' = true)
  /\ (wallet_dir d = true ->
      startup rename_throws mkdir_throws d = (Ok tt, d, []))
  /\ (wallet_dir d = false -> old_wallet_dir d = true ->
      match rename_throws with
      | None =>
          startup rename_throws mkdir_throws d
          = (Ok tt, mkDirs true false, [LogMigrated])
      | Some err =>
          startup rename_throws mkdir_throws d
          = (match mkdir_throws with
             | None => Ok tt
             | Some err' => Throw err'
             end,
             mkDirs (match mkdir_throws with None => true | Some _ => false end)
                    true,
             [ErrMigration err])
      end)
  /\ (forall err d' written,
         startup rename_throws mkdir_throws d = (Throw err, d', written) ->
         mkdir_throws = Some err /\ wallet_dir d' = false).
Proof.
  unfold startup.
  destruct d as [[|] [|]], rename_throws as [e1|], mkdir_throws as [e2|];
    cbn; repeat split; intros; try discriminate; try congruence;
    match goal with
    | H : (_, _, _) = (_, _, _) |- _ => inversion H; subst; reflexivity
    end.
Qed.

Lemma startup_leaves_a_wallet_directory_witness :
  startup (Some (error_of "EXDEV: cross-device link not permitted")) None
          (mkDirs false true)
  = (Ok tt, mkDirs true true,
     [ErrMigration (error_of "EXDEV: cross-device link not permitted")]).
Proof.
  exact (proj1 (proj2 (proj2 (startup_leaves_a_wallet_directory
                                (Some (error_of "EXDEV: cross-device link not permitted"))
                                None (mkDirs false true)))) eq_refl eq_refl).
Defined.
